(** * shot: command-line driven region resolution (src/shot.c)

    A shallow embedding of [init_region], [parse_options], [get_output_path]
    and [main] of [src/shot.c].  C [int] values are integers of [Z]; text is
    [string]; the process state that the C code reaches through pointers,
    [stdout]/[stderr] and the platform is passed explicitly. *)

From Stdlib Require Import ZArith List String Ascii Bool Lia DecimalString.
Import ListNotations.
Open Scope string_scope.
Open Scope Z_scope.

(** ** C integers *)

(** Reinterpretation of an integer as a 32-bit signed [int]. *)
Definition to_int (z : Z) : Z := (z + 2 ^ 31) mod 2 ^ 32 - 2 ^ 31.

(** Conversion of an integer to an unsigned type of [bits] bits. *)
Definition to_unsigned (bits z : Z) : Z := z mod 2 ^ bits.

(** The code of a character constant, as [switch (c)] compares it. *)
Definition chr (a : ascii) : Z := Z.of_nat (nat_of_ascii a).

(** [printf("%d", z)]. *)
Definition fmt_d (z : Z) : string := NilZero.string_of_int (Z.to_int z).

(** ** atoi (libc) *)

Definition isspace (a : ascii) : bool :=
  let n := nat_of_ascii a in
  (Nat.eqb n 32 || (Nat.leb 9 n && Nat.leb n 13))%bool.

Definition digit_of (a : ascii) : option Z :=
  let n := Z.of_nat (nat_of_ascii a) in
  if ((48 <=? n) && (n <=? 57))%bool then Some (n - 48) else None.

Fixpoint atoi_digits (s : string) (acc : Z) : Z :=
  match s with
  | String a rest =>
      match digit_of a with
      | Some d => atoi_digits rest (10 * acc + d)
      | None => acc
      end
  | EmptyString => acc
  end.

Definition atoi_signed (s : string) : Z :=
  match s with
  | String "-" rest => - atoi_digits rest 0
  | String "+" rest => atoi_digits rest 0
  | _ => atoi_digits s 0
  end.

Fixpoint atoi_skip (s : string) : Z :=
  match s with
  | String a rest => if isspace a then atoi_skip rest else atoi_signed s
  | EmptyString => 0
  end.

(** The integer that the text denotes, without bound: leading white space,
    an optional sign, then decimal digits up to the first other character
    (0 when there is no digit). *)
Definition number_in (s : string) : Z := atoi_skip s.

(** [strtol(s, NULL, 10)] of glibc with a [long] of 64 bits: the number in
    the text, kept within [LONG_MIN] and [LONG_MAX]. *)
Definition strtol (s : string) : Z :=
  Z.max (- 2 ^ 63) (Z.min (2 ^ 63 - 1) (number_in s)).

(** [atoi] of glibc, [(int) strtol(s, NULL, 10)]: a number that does not fit
    an [int] keeps its low 32 bits. *)
Definition atoi (s : string) : Z := to_int (strtol s).

(** ** getopt_long (libc), for the option tables of [parse_options] *)

Inductive has_arg_t := no_argument | required_argument.

Record option_t := mk_option {
  opt_name : string;
  opt_has_arg : has_arg_t;
  opt_val : ascii
}.

Definition short_opt : string := "ho:r:diw".

Definition long_opt : list option_t :=
  [ mk_option "help"        no_argument       "h";
    mk_option "output"      required_argument "o";
    mk_option "region"      required_argument "r";
    mk_option "monitor"     required_argument "m";
    mk_option "desktop"     no_argument       "d";
    mk_option "interactive" no_argument       "i";
    mk_option "window"      no_argument       "w" ].

(** One return of [getopt_long]: the value returned and [optarg] (the empty
    string where the option takes no argument and [optarg] is not read). *)
Record getopt_result := mk_result {
  c : Z;
  optarg : string
}.

Definition unknown : getopt_result := mk_result (chr "?") "".

(** Look-up of a short option letter in the option string: [None] when the
    letter is not listed, otherwise whether a colon follows it. *)
Fixpoint find_short (letter : ascii) (spec : string) : option has_arg_t :=
  match spec with
  | EmptyString => None
  | String a rest =>
      if Ascii.eqb a letter
      then Some (match rest with
                 | String ":" _ => required_argument
                 | _ => no_argument
                 end)
      else find_short letter rest
  end.

(** The letters of one argument [-abc], in order.  [next] is the following
    element of [argv], taken as the argument of a letter that needs one and
    ends the cluster.  The flag tells whether [next] was taken. *)
Fixpoint scan_short (spec cluster : string) (next : option string)
  : list getopt_result * bool :=
  match cluster with
  | EmptyString => ([], false)
  | String letter rest =>
      if Ascii.eqb letter ":" then
        let (evs, used) := scan_short spec rest next in (unknown :: evs, used)
      else
      match find_short letter spec with
      | None =>
          let (evs, used) := scan_short spec rest next in (unknown :: evs, used)
      | Some no_argument =>
          let (evs, used) := scan_short spec rest next in
          (mk_result (chr letter) "" :: evs, used)
      | Some required_argument =>
          match rest, next with
          | String _ _, _ => ([mk_result (chr letter) rest], false)
          | EmptyString, Some arg => ([mk_result (chr letter) arg], true)
          | EmptyString, None => ([unknown], false)
          end
      end
  end.

(** Splits [name=value] at the first [=]. *)
Fixpoint split_eq (s : string) : string * option string :=
  match s with
  | EmptyString => (EmptyString, None)
  | String "=" rest => (EmptyString, Some rest)
  | String a rest => let (n, v) := split_eq rest in (String a n, v)
  end.

(** Long option look-up: an exact name first, otherwise the only option the
    name abbreviates. *)
Definition find_long (name : string) (table : list option_t) : option option_t :=
  match filter (fun o => String.eqb (opt_name o) name) table with
  | o :: _ => Some o
  | [] =>
      match filter (fun o => prefix name (opt_name o)) table with
      | [o] => Some o
      | _ => None
      end
  end.

(** One argument [--name] or [--name=value]. *)
Definition scan_long (table : list option_t) (body : string) (next : option string)
  : getopt_result * bool :=
  let (name, value) := split_eq body in
  match find_long name table with
  | None => (unknown, false)
  | Some o =>
      match opt_has_arg o, value, next with
      | no_argument, None, _ => (mk_result (chr (opt_val o)) "", false)
      | no_argument, Some _, _ => (unknown, false)
      | required_argument, Some v, _ => (mk_result (chr (opt_val o)) v, false)
      | required_argument, None, Some arg => (mk_result (chr (opt_val o)) arg, true)
      | required_argument, None, None => (unknown, false)
      end
  end.

(** The values that successive calls of [getopt_long] return before it
    returns -1, for the arguments after [argv[0]]: [--] ends the options,
    an argument that is not an option is passed over (the GNU permutation,
    in force when [POSIXLY_CORRECT] is not set). *)
Fixpoint getopt_long (spec : string) (table : list option_t) (args : list string)
  : list getopt_result :=
  match args with
  | [] => []
  | arg :: rest =>
      let next := match rest with [] => None | n :: _ => Some n end in
      let after (used : bool) :=
        if used
        then match rest with [] => [] | _ :: rest' => getopt_long spec table rest' end
        else getopt_long spec table rest in
      match arg with
      | String "-" (String "-" EmptyString) => []
      | String "-" (String "-" body) =>
          let (ev, used) := scan_long table body next in ev :: after used
      | String "-" (String a cluster) =>
          let (evs, used) := scan_short spec (String a cluster) next in
          evs ++ after used
      | _ => after false
      end
  end.

(** ** Data model *)

Record ShotRegion := mk_region {
  x : Z;
  y : Z;
  width : Z;
  height : Z
}.

(** [Monitor] ([monitor.h]), by the fields that [shot.c] reads. *)
Record Monitor := mk_monitor {
  mon_x : Z;
  mon_y : Z;
  mon_width : Z;
  mon_height : Z;
  primary : bool
}.

(** [MonitorManager]: [monitors] in enumeration order; [monitor_count] is
    the length of the sequence. *)
Definition MonitorManager := list Monitor.

Definition monitor_count (monitor_mgr : MonitorManager) : Z :=
  Z.of_nat (List.length monitor_mgr).

Record ShotOptions := mk_options {
  error : Z;
  output_path : option string;
  region : ShotRegion
}.

(** ** What the program does to its surroundings *)

Inductive stream := stdout | stderr.

(** The calls of the region resolvers and of the capture functions, with
    the arguments they are given, in the order the program makes them. *)
Inductive call :=
| call_all_monitors
| call_monitor (m : Monitor)
| call_string (spec : string)
| call_interactively (initial working_area : ShotRegion)
| call_active_window
| call_grab_screenshot (r : ShotRegion)
| call_save_to_png (path : string).

(** ** What the headers and the platform leave open

    [region_picker/errors.h] gives the error constants; the resolvers for a
    geometry string, the pointer selection and the focused window, the
    screen capture and the clock are outside [shot.c].  [world] is the state
    of the display and the user the latter depend on. *)
Record Platform := mk_platform {
  ERR_NOT_IMPLEMENTED : Z;
  ERR_CANCELED : Z;
  ERR_INVALID_ARGUMENT : Z;
  ERR_OTHER : Z;
  size_t_bits : Z;
  world : Type;
  bitmap : Type;
  uninitialized : ShotRegion;
  update_region_from_string : ShotRegion -> string -> Z * ShotRegion;
  update_region_interactively :
    world -> ShotRegion -> ShotRegion -> Z * ShotRegion * world;
  update_region_from_active_window : world -> ShotRegion -> Z * ShotRegion * world;
  grab_screenshot : world -> ShotRegion -> option bitmap;
  bitmap_save_to_png : world -> bitmap -> string -> Z;
  get_random_name : world -> string
}.

(** The error constants are four different codes, none of them the success
    code 0 or the value -1 that [parse_options] keeps for "no mode yet". *)
Record error_codes_ok (P : Platform) : Prop := {
  codes_distinct :
    NoDup [ERR_CANCELED P; ERR_NOT_IMPLEMENTED P; ERR_INVALID_ARGUMENT P; ERR_OTHER P];
  codes_failure :
    Forall (fun e => e <> 0 /\ e <> -1)
      [ERR_CANCELED P; ERR_NOT_IMPLEMENTED P; ERR_INVALID_ARGUMENT P; ERR_OTHER P]
}.

(** ** init_region *)

(** The [for] loop over the monitors: each primary monitor in turn moves
    the region to its middle.  The division of [int] by 2 rounds toward
    zero, [Z.quot]; the coordinates of displays are far from the bounds of
    [int], beyond which C defines no result. *)
Fixpoint init_region_loop (r : ShotRegion) (ms : list Monitor) : ShotRegion :=
  match ms with
  | [] => r
  | m :: rest =>
      if primary m
      then init_region_loop
             (mk_region (mon_x m + Z.quot (mon_width m - width r) 2)
                        (mon_y m + Z.quot (mon_height m - height r) 2)
                        (width r) (height r))
             rest
      else init_region_loop r rest
  end.

Definition init_region (monitor_mgr : MonitorManager) : ShotRegion :=
  init_region_loop (mk_region 40 40 640 480) monitor_mgr.

(** ** The resolvers of region_picker/monitor.h *)

(** Modelled from the spec: [update_region_from_monitor] of
    [region_picker/monitor.c] is not among the sources; section 4.3 has it
    copy the monitor's rectangle verbatim. *)
Definition update_region_from_monitor (r : ShotRegion) (m : Monitor)
  : Z * ShotRegion :=
  (0, mk_region (mon_x m) (mon_y m) (mon_width m) (mon_height m)).

(** Modelled from the spec: the least and the greatest value of a quantity
    over the monitors, for the bounding box of section 4.3. *)
Definition min_of (f : Monitor -> Z) (m : Monitor) (ms : list Monitor) : Z :=
  fold_left (fun acc m' => Z.min acc (f m')) ms (f m).

(** Modelled from the spec: the greatest value, likewise. *)
Definition max_of (f : Monitor -> Z) (m : Monitor) (ms : list Monitor) : Z :=
  fold_left (fun acc m' => Z.max acc (f m')) ms (f m).

(** Modelled from the spec: the bounding box of section 4.3 over a
    non-empty sequence of monitors, [x = min(m.x)], [y = min(m.y)],
    [width = max(m.x + m.width) - x], [height = max(m.y + m.height) - y]. *)
Definition desktop_bounds (m : Monitor) (ms : list Monitor) : ShotRegion :=
  let left := min_of mon_x m ms in
  let top := min_of mon_y m ms in
  mk_region left top
    (max_of (fun m' => mon_x m' + mon_width m') m ms - left)
    (max_of (fun m' => mon_y m' + mon_height m') m ms - top).

Section Resolution.

Variable P : Platform.

(** Modelled from the spec: [update_region_from_all_monitors] of
    [region_picker/monitor.c] is not among the sources; section 4.3 gives
    the bounding box over all monitors and success for at least one
    monitor.  It says nothing of an empty sequence, which [parse_options]
    rules out by assertion before any call; [ERR_OTHER] stands there. *)
Definition update_region_from_all_monitors
  (r : ShotRegion) (monitor_mgr : MonitorManager) : Z * ShotRegion :=
  match monitor_mgr with
  | [] => (ERR_OTHER P, r)
  | m :: ms => (0, desktop_bounds m ms)
  end.

(** ** The state of one run *)

(** The locals of [parse_options] ([options], [region_result]) with the
    state of the platform, the text that [shot.c] has written (what
    [getopt_long] writes of its own to [stderr] is not kept) and the calls
    made so far. *)
Record state := mk_state {
  options : ShotOptions;
  region_result : Z;
  env : world P;
  out : list (stream * string);
  calls : list call
}.

Definition nl : string := String (ascii_of_nat 10) EmptyString.

Definition print (s : stream) (text : string) (st : state) : state :=
  mk_state (options st) (region_result st) (env st) (out st ++ [(s, text)]) (calls st).

Definition called (k : list call) (st : state) : state :=
  mk_state (options st) (region_result st) (env st) (out st) (calls st ++ k).

Definition set_error (e : Z) (st : state) : state :=
  mk_state (mk_options e (output_path (options st)) (region (options st)))
    (region_result st) (env st) (out st) (calls st).

Definition set_output_path (path : string) (st : state) : state :=
  mk_state (mk_options (error (options st)) (Some path) (region (options st)))
    (region_result st) (env st) (out st) (calls st).

(** [region_result = f(&options.region, ...)]: the resolver's return value
    and what it leaves in [options.region]. *)
Definition set_result (res : Z * ShotRegion) (st : state) : state :=
  mk_state (mk_options (error (options st)) (output_path (options st)) (snd res))
    (fst res) (env st) (out st) (calls st).

Definition set_env (w : world P) (st : state) : state :=
  mk_state (options st) (region_result st) w (out st) (calls st).

Definition usage_text : string := "usage..." ++ nl.

Definition usage_hint_text (program_name : string) : string :=
  "Try '" ++ program_name ++ " --help' for more information." ++ nl.

Definition show_usage (st : state) : state := print stdout usage_text st.

Definition show_usage_hint (program_name : string) (st : state) : state :=
  print stderr (usage_hint_text program_name) st.

Definition invalid_monitor_text (monitor_mgr : MonitorManager) : string :=
  "Invalid monitor number." ++ "Valid monitor numbers = 0.."
    ++ fmt_d (to_int (monitor_count monitor_mgr - 1)) ++ nl.

Definition invalid_option_text (program_name : string) (k : Z) : string :=
  program_name ++ ": invalid option -- '"
    ++ String (ascii_of_nat (Z.to_nat (k mod 256))) "'" ++ nl.

(** ** parse_options: the body of the [switch] *)

Definition case_d (monitor_mgr : MonitorManager) (st : state) : option state :=
  Some (set_result
          (update_region_from_all_monitors (region (options st)) monitor_mgr)
          (called [call_all_monitors] st)).

Definition case_m (monitor_mgr : MonitorManager) (arg : string) (st : state)
  : option state :=
  let n := to_unsigned (size_t_bits P) (atoi arg) in
  if n >=? monitor_count monitor_mgr then
    Some (set_result (ERR_INVALID_ARGUMENT P, region (options st))
            (print stderr (invalid_monitor_text monitor_mgr) st))
  else
    match nth_error monitor_mgr (Z.to_nat n) with
    | Some m =>
        Some (set_result (update_region_from_monitor (region (options st)) m)
                (called [call_monitor m] st))
    | None => None
    end.

Definition case_r (arg : string) (st : state) : option state :=
  Some (set_result (update_region_from_string P (region (options st)) arg)
          (called [call_string arg] st)).

(** The working area is a local without initial value; the assertion stops
    the program when its computation fails. *)
Definition case_i (monitor_mgr : MonitorManager) (st : state) : option state :=
  let working := update_region_from_all_monitors (uninitialized P) monitor_mgr in
  if fst working =? 0 then
    let '(res, r, w) :=
      update_region_interactively P (env st) (region (options st)) (snd working) in
    Some (set_env w
            (set_result (res, r)
               (called [call_all_monitors;
                        call_interactively (region (options st)) (snd working)] st)))
  else None.

Definition case_w (st : state) : option state :=
  let '(res, r, w) := update_region_from_active_window P (env st) (region (options st)) in
  Some (set_env w (set_result (res, r) (called [call_active_window] st))).

(** One turn of the [switch (c)]; [None] is an assertion that fails. *)
Definition handle_option (program_name : string) (monitor_mgr : MonitorManager)
  (r : getopt_result) (st : state) : option state :=
  let k := c r in
  if ((k =? -1) || (k =? 0))%bool then Some st
  else if k =? chr "o" then Some (set_output_path (optarg r) st)
  else if k =? chr "h" then Some (set_error (-1) (show_usage st))
  else if ((k =? chr ":") || (k =? chr "?"))%bool
       then Some (set_error 1 (show_usage_hint program_name st))
  else if k =? chr "d" then case_d monitor_mgr st
  else if k =? chr "m" then case_m monitor_mgr (optarg r) st
  else if k =? chr "r" then case_r (optarg r) st
  else if k =? chr "i" then case_i monitor_mgr st
  else if k =? chr "w" then case_w st
  else Some (set_error 1
               (show_usage_hint program_name
                  (print stderr (invalid_option_text program_name k) st))).

(** The [while (!options.error)] loop over the values [getopt_long]
    returns; the end of the list is its return of -1. *)
Fixpoint parse_loop (program_name : string) (monitor_mgr : MonitorManager)
  (rs : list getopt_result) (st : state) : option state :=
  if error (options st) =? 0 then
    match rs with
    | [] => Some st
    | r :: rest =>
        if c r =? -1 then Some st
        else match handle_option program_name monitor_mgr r st with
             | Some st' => parse_loop program_name monitor_mgr rest st'
             | None => None
             end
    end
  else Some st.

(** ** parse_options: after the loop *)

(** "if no region was chosen in the arguments, take the whole desktop". *)
Definition fallback (monitor_mgr : MonitorManager) (st : state) : state :=
  if region_result st =? -1 then
    set_result (update_region_from_all_monitors (region (options st)) monitor_mgr)
      (called [call_all_monitors] st)
  else st.

Definition canceled_text : string := "Canceled due to user input." ++ nl.
Definition not_implemented_text : string := "Not implemented. Sorry..." ++ nl.
Definition invalid_argument_text : string := "Invalid argument, aborting." ++ nl.
Definition other_text : string := "An error occurred, aborting." ++ nl.

(** [if (region_result) { ... options.error = 1; }]. *)
Definition report (program_name : string) (st : state) : state :=
  if region_result st =? 0 then st
  else
    set_error 1
      (if region_result st =? ERR_CANCELED P then print stderr canceled_text st
       else if region_result st =? ERR_NOT_IMPLEMENTED P
            then print stderr not_implemented_text st
       else if region_result st =? ERR_INVALID_ARGUMENT P
            then show_usage_hint program_name (print stderr invalid_argument_text st)
       else if region_result st =? ERR_OTHER P then print stderr other_text st
       else st).

Definition initial_state (monitor_mgr : MonitorManager) (w : world P) : state :=
  mk_state (mk_options 0 None (init_region monitor_mgr)) (-1) w [] [].

(** [parse_options] on the values [getopt_long] returns for [argv]; the
    result carries the returned [options].  [None]: an assertion failed. *)
Definition parse_options_on (program_name : string) (rs : list getopt_result)
  (monitor_mgr : MonitorManager) (w : world P) : option state :=
  if monitor_count monitor_mgr =? 0 then None
  else
    match parse_loop program_name monitor_mgr rs (initial_state monitor_mgr w) with
    | Some st => Some (report program_name (fallback monitor_mgr st))
    | None => None
    end.

Definition parse_options (argv : list string) (monitor_mgr : MonitorManager)
  (w : world P) : option state :=
  parse_options_on (hd "" argv) (getopt_long short_opt long_opt (tl argv))
    monitor_mgr w.

(** ** get_output_path *)

Fixpoint last_char (s : string) : option ascii :=
  match s with
  | EmptyString => None
  | String a EmptyString => Some a
  | String _ rest => last_char rest
  end.

Definition is_separator (a : ascii) : bool :=
  (Ascii.eqb a "/" || Ascii.eqb a (ascii_of_nat 92))%bool.

Definition get_output_path (w : world P) (path : option string) : string :=
  match path with
  | None => get_random_name P w
  | Some p =>
      match last_char p with
      | None => get_random_name P w
      | Some a => if is_separator a then p ++ get_random_name P w else p
      end
  end.

(** ** main *)

Record outcome := mk_outcome {
  exit_code : Z;
  printed : list (stream * string);
  made : list call
}.

Definition manager_text : string :=
  "Failed to initialize monitor manager, aborting." ++ nl.

Definition validation_text : string :=
  "Cannot take screenshot with non-positive width or height." ++ nl.

(** What [main] does with the options it got from [parse_options]. *)
Definition capture (st : state) : option outcome :=
  if negb (error (options st) =? 0) then Some (mk_outcome 1 (out st) (calls st))
  else
    let path := get_output_path (env st) (output_path (options st)) in
    let r := region (options st) in
    if ((width r <=? 0) || (height r <=? 0))%bool then
      Some (mk_outcome 1 (out st ++ [(stderr, validation_text)]) (calls st))
    else
      match grab_screenshot P (env st) r with
      | None => None
      | Some b =>
          let k := (calls st ++ [call_grab_screenshot r; call_save_to_png path])%list in
          if negb (bitmap_save_to_png P (env st) b path =? 0)
          then Some (mk_outcome 1 (out st) k)
          else Some (mk_outcome 0 (out st) k)
      end.

Definition main_on (program_name : string) (rs : list getopt_result)
  (monitor_mgr : MonitorManager) (w : world P) : option outcome :=
  match parse_options_on program_name rs monitor_mgr w with
  | Some st => capture st
  | None => None
  end.

(** [created]: what [monitor_mgr_create] returned; [None] is the null
    pointer.  The result is [None] when the program stops at an assertion. *)
Definition main (argv : list string) (created : option MonitorManager)
  (w : world P) : option outcome :=
  match created with
  | None => Some (mk_outcome 1 [(stderr, manager_text)] [])
  | Some monitor_mgr =>
      main_on (hd "" argv) (getopt_long short_opt long_opt (tl argv)) monitor_mgr w
  end.

End Resolution.

Arguments options {P} _.
Arguments region_result {P} _.
Arguments env {P} _.
Arguments out {P} _.
Arguments calls {P} _.

(** ** A concrete platform, for running the definitions

    Error codes 1 to 4, a 64-bit [size_t]; the user's answers to successive
    pointer selections are scripted in the world, a selection without a
    scripted answer is canceled; the focused window cannot be queried; a
    geometry string is not interpreted; captures and saving succeed. *)
Definition scripted : Platform :=
  {| ERR_NOT_IMPLEMENTED := 1;
     ERR_CANCELED := 2;
     ERR_INVALID_ARGUMENT := 3;
     ERR_OTHER := 4;
     size_t_bits := 64;
     world := list ShotRegion;
     bitmap := ShotRegion;
     uninitialized := mk_region 0 0 0 0;
     update_region_from_string := fun r _ => (3, r);
     update_region_interactively := fun w r _ =>
       match w with
       | [] => (2, r, [])
       | answer :: w' => (0, answer, w')
       end;
     update_region_from_active_window := fun w r => (1, r, w);
     grab_screenshot := fun _ r => Some r;
     bitmap_save_to_png := fun _ _ _ => 0;
     get_random_name := fun _ => "20261030_120000_abc.png" |}.

Definition two_monitors : MonitorManager :=
  [ mk_monitor 0 0 1920 1080 false; mk_monitor 1920 0 1280 1024 false ].

(** ** Facts about the option loop *)

(** The values for [--region], [--monitor], [--desktop], [--interactive]
    and [--window]: the cases of the [switch] that assign [region_result]. *)
Definition is_mode (r : getopt_result) : bool :=
  ((c r =? chr "d") || (c r =? chr "m") || (c r =? chr "r")
   || (c r =? chr "i") || (c r =? chr "w"))%bool.

(** [getopt_long] has not returned -1 anywhere in [rs]. *)
Definition no_end (rs : list getopt_result) : bool :=
  forallb (fun r => negb (c r =? -1)) rs.

(** The calls that capture and save, as opposed to the resolvers' calls. *)
Definition is_capture (k : call) : bool :=
  match k with
  | call_grab_screenshot _ | call_save_to_png _ => true
  | _ => false
  end.

(** The state with another value in [region_result]. *)
Definition with_result {P : Platform} (res : Z) (st : state P) : state P :=
  mk_state P (options st) res (env st) (out st) (calls st).

(** The 640x480 region in the middle of a monitor, by the arithmetic of
    [init_region]. *)
Definition centered_on (m : Monitor) : ShotRegion :=
  mk_region (mon_x m + Z.quot (mon_width m - 640) 2)
            (mon_y m + Z.quot (mon_height m - 480) 2) 640 480.

(** ** get_random_name

    The clock and the random numbers come from libc: [time_str] is what
    [strftime] wrote into the 20-byte buffer, [r0], [r1], [r2] are the three
    values of [rand()]. *)

(** ['a' + rand() % ('z' + 1 - 'a')], stored in a [char]. *)
Definition random_char (r : Z) : ascii :=
  ascii_of_nat (Z.to_nat (to_unsigned 8 (97 + Z.rem r (122 + 1 - 97)))).

(** [strcpy] of the time, [strcat] of ["_"], one [strncat] for each random
    letter, [strcat] of [".png"]. *)
Definition random_name (time_str : string) (r0 r1 r2 : Z) : string :=
  fold_left (fun name r => name ++ String (random_char r) EmptyString)
    [r0; r1; r2] (time_str ++ "_") ++ ".png".

Definition is_lower (a : ascii) : bool :=
  (Nat.leb 97 (nat_of_ascii a) && Nat.leb (nat_of_ascii a) 122)%bool.

Definition is_stdout (line : stream * string) : bool :=
  match fst line with stdout => true | stderr => false end.

(** The values of [getopt_long] for [-o] and [--output]. *)
Definition is_output (r : getopt_result) : bool := c r =? chr "o".

(** The values that the [switch] takes without setting the error to 1:
    those of the cases other than [':'] and ['?'], and -1, which ends the
    loop before the [switch]. *)
Definition is_known (r : getopt_result) : bool :=
  ((c r =? -1) || (c r =? 0) || (c r =? chr "o") || (c r =? chr "h")
   || (c r =? chr "d") || (c r =? chr "m") || (c r =? chr "r")
   || (c r =? chr "i") || (c r =? chr "w"))%bool.

(** The platform [scripted] with a focused-window resolver that fails with
    a code of its own, 9. *)
Definition scripted_code_9 : Platform :=
  {| ERR_NOT_IMPLEMENTED := 1;
     ERR_CANCELED := 2;
     ERR_INVALID_ARGUMENT := 3;
     ERR_OTHER := 4;
     size_t_bits := 64;
     world := list ShotRegion;
     bitmap := ShotRegion;
     uninitialized := mk_region 0 0 0 0;
     update_region_from_string := fun r _ => (3, r);
     update_region_interactively := fun w r _ =>
       match w with
       | [] => (2, r, [])
       | answer :: w' => (0, answer, w')
       end;
     update_region_from_active_window := fun w r => (9, r, w);
     grab_screenshot := fun _ r => Some r;
     bitmap_save_to_png := fun _ _ _ => 0;
     get_random_name := fun _ => "20261030_120000_abc.png" |}.

(** Nothing on [stdout] yet, or the usage text once and the error set. *)
Definition stdout_ok {P : Platform} (st : state P) : Prop :=
  filter is_stdout (out st) = []
  \/ (filter is_stdout (out st) = [(stdout, usage_text)]
      /\ error (options st) <> 0).

(** The error flag is 0, 1 or, after the usage text, -1. *)
Definition error_ok {P : Platform} (st : state P) : Prop :=
  error (options st) = 0 \/ error (options st) = 1
  \/ (error (options st) = -1 /\ In (stdout, usage_text) (out st)).

(** The values at which the option loop is over: -1 from [getopt_long],
    the value for help, and the values that set the error to 1. *)
Definition stops (r : getopt_result) : bool :=
  ((c r =? -1) || (c r =? chr "h") || negb (is_known r))%bool.

(** The platform [scripted] with a pointer selection that commits the
    region it is handed as its preselection. *)
Definition preselecting : Platform :=
  {| ERR_NOT_IMPLEMENTED := 1;
     ERR_CANCELED := 2;
     ERR_INVALID_ARGUMENT := 3;
     ERR_OTHER := 4;
     size_t_bits := 64;
     world := list ShotRegion;
     bitmap := ShotRegion;
     uninitialized := mk_region 0 0 0 0;
     update_region_from_string := fun r _ => (3, r);
     update_region_interactively := fun w r _ => (0, r, w);
     update_region_from_active_window := fun w r => (1, r, w);
     grab_screenshot := fun _ r => Some r;
     bitmap_save_to_png := fun _ _ _ => 0;
     get_random_name := fun _ => "20261030_120000_abc.png" |}.

Section LoopFacts.

Variable P : Platform.
Variable program_name : string.
Variable monitor_mgr : MonitorManager.

Ltac split_modes H :=
  unfold is_mode in H;
  repeat (apply orb_false_iff in H; destruct H as [H ?]).

(** A value that is no mode flag leaves the region and [region_result]
    alone, and no assertion is in its way. *)
Lemma handle_other_keeps (r : getopt_result) (st : state P) :
  is_mode r = false ->
  exists st', handle_option P program_name monitor_mgr r st = Some st'
    /\ region (options st') = region (options st)
    /\ region_result st' = region_result st
    /\ calls st' = calls st.
Proof.
  intros H. split_modes H. unfold handle_option.
  rewrite H, H0, H1, H2, H3.
  repeat match goal with
         | |- context [if ?b then _ else _] => destruct b
         end; eexists; (split; [reflexivity | cbn; auto]).
Qed.

Lemma loop_other_keeps (rs : list getopt_result) :
  forall st : state P,
    forallb (fun r => negb (is_mode r)) rs = true ->
    exists st', parse_loop P program_name monitor_mgr rs st = Some st'
      /\ region (options st') = region (options st)
      /\ region_result st' = region_result st
      /\ calls st' = calls st.
Proof.
  induction rs as [|r rest IH]; intros st H; cbn [parse_loop].
  - destruct (error (options st) =? 0); eauto.
  - cbn [forallb] in H. apply andb_true_iff in H. destruct H as [Hr Hrest].
    apply negb_true_iff in Hr.
    destruct (error (options st) =? 0); [|eauto].
    destruct (c r =? -1); [eauto|].
    destruct (handle_other_keeps r st Hr) as (st1 & -> & E1 & E2 & E3).
    destruct (IH st1 Hrest) as (st2 & -> & F1 & F2 & F3).
    exists st2. repeat split; congruence.
Qed.

(** A prefix that the loop went through without stopping can be cut off. *)
Lemma loop_app (pre rest : list getopt_result) :
  forall st0 st1 : state P,
    no_end pre = true ->
    parse_loop P program_name monitor_mgr pre st0 = Some st1 ->
    error (options st1) = 0 ->
    parse_loop P program_name monitor_mgr (pre ++ rest) st0
    = parse_loop P program_name monitor_mgr rest st1.
Proof.
  induction pre as [|r pre IH]; intros st0 st1 Hend Hrun Herr.
  - cbn [parse_loop] in Hrun. destruct (error (options st0) =? 0);
      inversion Hrun; subst; reflexivity.
  - cbn [no_end forallb] in Hend. apply andb_true_iff in Hend.
    destruct Hend as [Hr Hend]. apply negb_true_iff in Hr.
    cbn [parse_loop app] in *.
    destruct (error (options st0) =? 0) eqn:E0.
    + rewrite Hr in *. destruct (handle_option P program_name monitor_mgr r st0) as [st|]; [|discriminate].
      apply IH; assumption.
    + inversion Hrun; subst. rewrite Herr in E0. discriminate.
Qed.

(** The result code of a mode flag does not depend on the code that the
    flags before it left in [region_result]. *)
Lemma is_mode_cases (r : getopt_result) :
  is_mode r = true ->
  c r = chr "d" \/ c r = chr "m" \/ c r = chr "r" \/ c r = chr "i" \/ c r = chr "w".
Proof.
  unfold is_mode. rewrite !orb_true_iff, !Z.eqb_eq. tauto.
Qed.

(** A mode flag assigns [region_result] without reading it: whatever the
    flags before it left there, the state after it is the same. *)
Lemma handle_mode_overwrites (r : getopt_result) (st : state P) (res : Z) :
  is_mode r = true ->
  handle_option P program_name monitor_mgr r (with_result res st)
  = handle_option P program_name monitor_mgr r st.
Proof.
  intros Hm. apply is_mode_cases in Hm. destruct r as [k a]. cbn [c] in Hm.
  destruct Hm as [-> | [-> | [-> | [-> | ->]]]]; reflexivity.
Qed.

(** Once [options.error] is set the loop is over, whatever follows. *)
Lemma loop_stop (pre rest : list getopt_result) :
  forall st0 st1 : state P,
    parse_loop P program_name monitor_mgr pre st0 = Some st1 ->
    error (options st1) <> 0 ->
    parse_loop P program_name monitor_mgr (pre ++ rest) st0 = Some st1.
Proof.
  induction pre as [|r pre IH]; intros st0 st1 Hrun Herr; cbn [parse_loop app] in *.
  - assert (st0 = st1) as -> by (destruct (error (options st0) =? 0); congruence).
    apply Z.eqb_neq in Herr. destruct rest; cbn [parse_loop]; rewrite Herr; reflexivity.
  - destruct (error (options st0) =? 0) eqn:E0; [|assumption].
    destruct (c r =? -1).
    + inversion Hrun; subst. apply Z.eqb_eq in E0. contradiction.
    + destruct (handle_option P program_name monitor_mgr r st0); [|discriminate].
      apply IH; assumption.
Qed.

(** Every call that one turn of the [switch] makes is a resolver's. *)
Lemma handle_calls (r : getopt_result) (st st' : state P) :
  handle_option P program_name monitor_mgr r st = Some st' ->
  exists k, calls st' = (calls st ++ k)%list
    /\ forallb (fun a => negb (is_capture a)) k = true.
Proof.
  unfold handle_option, case_d, case_m, case_r, case_i, case_w. intros H.
  repeat match type of H with
         | context [if ?b then _ else _] => destruct b
         | context [match ?e with _ => _ end] => destruct e
         end;
    inversion H; subst; cbn;
    first [ exists []; split; [rewrite app_nil_r; reflexivity | reflexivity]
          | eexists; split; reflexivity ].
Qed.

Lemma loop_calls (rs : list getopt_result) :
  forall st st' : state P,
    parse_loop P program_name monitor_mgr rs st = Some st' ->
    exists k, calls st' = (calls st ++ k)%list
      /\ forallb (fun a => negb (is_capture a)) k = true.
Proof.
  induction rs as [|r rest IH]; intros st st' H; cbn [parse_loop] in H.
  - exists []. rewrite app_nil_r.
    destruct (error (options st) =? 0); inversion H; auto.
  - destruct (error (options st) =? 0);
      [|exists []; rewrite app_nil_r; inversion H; auto].
    destruct (c r =? -1); [exists []; rewrite app_nil_r; inversion H; auto|].
    destruct (handle_option P program_name monitor_mgr r st) as [st1|] eqn:E;
      [|discriminate].
    destruct (handle_calls r st st1 E) as (k1 & E1 & N1).
    destruct (IH st1 st' H) as (k2 & E2 & N2).
    exists (k1 ++ k2)%list. rewrite E2, E1, app_assoc, forallb_app, N1, N2. auto.
Qed.

(** ** Facts about what follows the loop *)

Lemma fallback_idle (st : state P) :
  region_result st <> -1 -> fallback P monitor_mgr st = st.
Proof.
  intros H. unfold fallback. apply Z.eqb_neq in H. rewrite H. reflexivity.
Qed.

(** Reporting changes neither the region, nor the result code, nor the
    calls made; it sets the error exactly when the code is not 0. *)
Lemma report_keeps (st : state P) :
  region (options (report P program_name st)) = region (options st)
  /\ region_result (report P program_name st) = region_result st
  /\ calls (report P program_name st) = calls st
  /\ env (report P program_name st) = env st
  /\ output_path (options (report P program_name st)) = output_path (options st).
Proof.
  unfold report.
  repeat match goal with
         | |- context [if ?b then _ else _] => destruct b
         end; cbn; auto.
Qed.

Lemma report_error (st : state P) :
  error (options (report P program_name st))
  = if region_result st =? 0 then error (options st) else 1.
Proof.
  unfold report. destruct (region_result st =? 0); reflexivity.
Qed.

Lemma report_success (st : state P) :
  region_result st = 0 -> report P program_name st = st.
Proof.
  intros H. unfold report. rewrite H. reflexivity.
Qed.

End LoopFacts.

(** ** The order of mode flags *)

Lemma monitor_count_cons (m : Monitor) (ms : list Monitor) :
  (monitor_count (m :: ms) =? 0) = false.
Proof.
  apply Z.eqb_neq. unfold monitor_count. cbn [List.length]. lia.
Qed.

Lemma handle_total (P : Platform) (program_name : string)
  (m : Monitor) (ms : list Monitor) (r : getopt_result) (st : state P) :
  exists st', handle_option P program_name (m :: ms) r st = Some st'.
Proof.
  unfold handle_option.
  repeat match goal with
         | |- context [if ?b then _ else _] => destruct b
         end; eauto.
  - unfold case_d. eauto.
  - unfold case_m.
    destruct (to_unsigned (size_t_bits P) (atoi (optarg r)) >=? monitor_count (m :: ms))
      eqn:Hn; [eauto|].
    rewrite Z.geb_leb in Hn. apply Z.leb_gt in Hn.
    destruct (nth_error (m :: ms)
                (Z.to_nat (to_unsigned (size_t_bits P) (atoi (optarg r)))))
      eqn:Hnth; [eauto|].
    apply nth_error_None in Hnth. unfold monitor_count in Hn.
    cbn [List.length] in *. lia.
  - unfold case_r. eauto.
  - unfold case_i. cbn [update_region_from_all_monitors fst snd Z.eqb].
    destruct (update_region_interactively P (env st) (region (options st))
                (desktop_bounds m ms)) as [[res reg] w']. eauto.
  - unfold case_w.
    destruct (update_region_from_active_window P (env st) (region (options st)))
      as [[res reg] w']. eauto.
Qed.

Lemma handle_unknown (P : Platform) (program_name : string)
  (monitor_mgr : MonitorManager) (r : getopt_result) (st : state P) :
  is_known r = false ->
  handle_option P program_name monitor_mgr r st
  = Some (set_error P 1
            (show_usage_hint P program_name
               (if ((c r =? chr ":") || (c r =? chr "?"))%bool then st
                else print P stderr (invalid_option_text program_name (c r)) st))).
Proof.
  unfold is_known. intros H.
  repeat (apply orb_false_iff in H; destruct H as [H ?]).
  unfold handle_option.
  repeat match goal with
         | E : (_ =? _) = false |- _ => rewrite E; clear E
         end.
  cbn [orb]. destruct ((c r =? chr ":") || (c r =? chr "?"))%bool; reflexivity.
Qed.

Lemma loop_halted (P : Platform) (program_name : string)
  (monitor_mgr : MonitorManager) (rs : list getopt_result) (st : state P) :
  error (options st) <> 0 ->
  parse_loop P program_name monitor_mgr rs st = Some st.
Proof.
  intros H. apply Z.eqb_neq in H. destruct rs; cbn [parse_loop]; rewrite H; reflexivity.
Qed.

(** What follows a value at which the loop is over is not looked at. *)
Lemma loop_stops (P : Platform) (program_name : string)
  (monitor_mgr : MonitorManager) (quiet rest : list getopt_result) :
  existsb stops quiet = true ->
  forall st : state P,
    parse_loop P program_name monitor_mgr (quiet ++ rest) st
    = parse_loop P program_name monitor_mgr quiet st.
Proof.
  induction quiet as [|r quiet IH]; intros Hstop st; [discriminate|].
  cbn [existsb] in Hstop. cbn [app parse_loop].
  destruct (error (options st) =? 0); [|reflexivity].
  destruct (c r =? -1) eqn:Hend; [reflexivity|].
  destruct (stops r) eqn:Hr.
  - unfold stops in Hr. rewrite Hend in Hr. cbn [orb] in Hr.
    assert (Hset : exists st',
               handle_option P program_name monitor_mgr r st = Some st'
               /\ error (options st') <> 0).
    { destruct (c r =? chr "h") eqn:Hh.
      - apply Z.eqb_eq in Hh. destruct r as [k a]. cbn [c] in Hh. subst k.
        eexists. split; [reflexivity | cbn; discriminate].
      - cbn [orb] in Hr. apply negb_true_iff in Hr.
        rewrite (handle_unknown P program_name monitor_mgr r st Hr).
        eexists. split; [reflexivity | cbn; discriminate]. }
    destruct Hset as (st' & -> & Hne).
    rewrite !loop_halted by exact Hne. reflexivity.
  - cbn [orb] in Hstop.
    destruct (handle_option P program_name monitor_mgr r st); [|reflexivity].
    apply IH. exact Hstop.
Qed.

(** C1 as stated fails.  [--desktop --monitor 99] ends with the rectangle
    of the desktop, which the first flag produced, beside the code of the
    second.  And with a pointer selection that commits its preselection,
    [-d -i] ends with the desktop rectangle where [-i] alone ends with the
    initial 640x480 one: the resolver of the last flag is handed what the
    flag before it left. *)
Lemma earlier_flag_shows_through :
  (exists st,
      parse_options scripted ["shot"; "--desktop"; "--monitor"; "99"] two_monitors []
      = Some st
      /\ region (options st) = mk_region 0 0 3200 1080
      /\ region_result st = ERR_INVALID_ARGUMENT scripted)
  /\ (exists st st',
         parse_options preselecting ["shot"; "-d"; "-i"] two_monitors [] = Some st
         /\ parse_options preselecting ["shot"; "-i"] two_monitors [] = Some st'
         /\ region_result st = 0 /\ region_result st' = 0
         /\ region (options st) = mk_region 0 0 3200 1080
         /\ region (options st') = mk_region 40 40 640 480).
Proof.
  split.
  - eexists. split; [reflexivity|]. split; reflexivity.
  - eexists. eexists. split; [reflexivity|]. split; [reflexivity|].
    repeat split.
Qed.

(** C1, amended.  When the option loop has gone through [pre] and reaches
    the mode flag [r], and every value it still handles after [r]
    ([quiet], followed by [rest] only if the loop is over within [quiet])
    is no mode flag, then at the end of the loop the result code is the
    one of [r]'s turn, whatever code the flags of [pre] left (the turn
    does not read [region_result]), and the region is what that turn
    left:
    - for [--desktop] the bounding box of the monitors, code 0;
    - for [--monitor] with an index below [monitor_count] the rectangle of
      that monitor, code 0; from [monitor_count] on the region that [pre]
      left, code [ERR_INVALID_ARGUMENT], no call;
    - for [--region], [--interactive] and [--window] the code and the
      region that the resolver returns when called on the region that
      [pre] left (and, for the pointer selection, the bounding box of the
      monitors as working area).
    Unless the code is -1, [parse_options] returns that region and code
    without a further call. *)
Theorem last_mode_flag_decides (P : Platform) (program_name : string)
  (m : Monitor) (ms : list Monitor) (w : world P)
  (pre quiet rest : list getopt_result) (r : getopt_result) (st1 : state P) :
  no_end pre = true ->
  parse_loop P program_name (m :: ms) pre (initial_state P (m :: ms) w) = Some st1 ->
  error (options st1) = 0 ->
  is_mode r = true ->
  forallb (fun e => negb (is_mode e)) quiet = true ->
  rest = [] \/ existsb stops quiet = true ->
  exists st3,
    parse_loop P program_name (m :: ms) (pre ++ r :: quiet ++ rest)
      (initial_state P (m :: ms) w) = Some st3
    /\ (c r = chr "d" ->
        region_result st3 = 0
        /\ region (options st3) = desktop_bounds m ms
        /\ calls st3 = (calls st1 ++ [call_all_monitors])%list)
    /\ (c r = chr "m" ->
        let n := to_unsigned (size_t_bits P) (atoi (optarg r)) in
        (n < monitor_count (m :: ms) ->
         exists mon,
           nth_error (m :: ms) (Z.to_nat n) = Some mon
           /\ region_result st3 = 0
           /\ region (options st3)
              = mk_region (mon_x mon) (mon_y mon) (mon_width mon) (mon_height mon)
           /\ calls st3 = (calls st1 ++ [call_monitor mon])%list)
        /\ (monitor_count (m :: ms) <= n ->
            region_result st3 = ERR_INVALID_ARGUMENT P
            /\ region (options st3) = region (options st1)
            /\ calls st3 = calls st1))
    /\ (c r = chr "r" ->
        (region_result st3, region (options st3))
        = update_region_from_string P (region (options st1)) (optarg r)
        /\ calls st3 = (calls st1 ++ [call_string (optarg r)])%list)
    /\ (c r = chr "i" ->
        (region_result st3, region (options st3), env st3)
        = update_region_interactively P (env st1) (region (options st1))
            (desktop_bounds m ms)
        /\ calls st3
           = (calls st1
              ++ [call_all_monitors;
                  call_interactively (region (options st1)) (desktop_bounds m ms)])%list)
    /\ (c r = chr "w" ->
        (region_result st3, region (options st3), env st3)
        = update_region_from_active_window P (env st1) (region (options st1))
        /\ calls st3 = (calls st1 ++ [call_active_window])%list)
    /\ (region_result st3 <> -1 ->
        exists st4,
          parse_options_on P program_name (pre ++ r :: quiet ++ rest) (m :: ms) w
          = Some st4
          /\ region (options st4) = region (options st3)
          /\ region_result st4 = region_result st3
          /\ calls st4 = calls st3)
    /\ (forall res,
          handle_option P program_name (m :: ms) r (with_result res st1)
          = handle_option P program_name (m :: ms) r st1).
Proof.
  intros Hend Hpre Herr Hmode Hquiet Hrest.
  pose proof (fun res => handle_mode_overwrites P program_name (m :: ms) r st1 res Hmode)
    as Hover.
  destruct (handle_total P program_name m ms r st1) as (st2 & Hr).
  assert (Hnot_end : (c r =? -1) = false).
  { apply is_mode_cases in Hmode. apply Z.eqb_neq.
    destruct Hmode as [-> | [-> | [-> | [-> | ->]]]]; discriminate. }
  destruct (loop_other_keeps P program_name (m :: ms) quiet st2 Hquiet)
    as (st3 & Hq & E1 & E2 & E3).
  assert (Henv : env st3 = env st2).
  { clear - Hq Hquiet. revert st2 Hq.
    induction quiet as [|e quiet IH]; intros st2 Hq; cbn [parse_loop] in Hq.
    - destruct (error (options st2) =? 0); inversion Hq; reflexivity.
    - cbn [forallb] in Hquiet. apply andb_true_iff in Hquiet.
      destruct Hquiet as [He Hquiet]. apply negb_true_iff in He.
      destruct (error (options st2) =? 0); [|inversion Hq; reflexivity].
      destruct (c e =? -1); [inversion Hq; reflexivity|].
      destruct (handle_option P program_name (m :: ms) e st2) as [st|] eqn:Hh;
        [|discriminate].
      rewrite (IH Hquiet st Hq). clear - He Hh.
      unfold is_mode in He.
      repeat (apply orb_false_iff in He; destruct He as [He ?]).
      unfold handle_option in Hh.
      repeat match goal with
             | E : (_ =? _) = false |- _ => rewrite E in Hh; clear E
             end.
      repeat match type of Hh with
             | context [if ?b then _ else _] => destruct b
             end; inversion Hh; reflexivity. }
  assert (Hloop : parse_loop P program_name (m :: ms) (pre ++ r :: quiet ++ rest)
                    (initial_state P (m :: ms) w) = Some st3).
  { rewrite (loop_app P program_name (m :: ms) pre _ _ st1 Hend Hpre Herr).
    cbn [parse_loop]. rewrite Herr, Hnot_end, Hr. cbn [Z.eqb].
    destruct Hrest as [-> | Hstop].
    - rewrite app_nil_r. exact Hq.
    - rewrite loop_stops by exact Hstop. exact Hq. }
  exists st3. split; [exact Hloop|].
  rewrite E1, E2, E3, Henv.
  destruct r as [k a]. cbn [c optarg] in *.
  split; [|split; [|split; [|split; [|split; [|split; [|exact Hover]]]]]].
  - intros ->. change (case_d P (m :: ms) st1 = Some st2) in Hr.
    unfold case_d in Hr. inversion Hr; subst. cbn. auto.
  - intros ->. change (case_m P (m :: ms) a st1 = Some st2) in Hr.
    unfold case_m in Hr. cbv zeta. split.
    + intros Hlt.
      assert ((to_unsigned (size_t_bits P) (atoi a) >=? monitor_count (m :: ms)) = false)
        as Hn by (rewrite Z.geb_leb; apply Z.leb_gt; exact Hlt).
      rewrite Hn in Hr.
      destruct (nth_error (m :: ms) (Z.to_nat (to_unsigned (size_t_bits P) (atoi a))))
        as [mon|]; [|discriminate].
      inversion Hr; subst. exists mon. cbn. auto.
    + intros Hge.
      assert ((to_unsigned (size_t_bits P) (atoi a) >=? monitor_count (m :: ms)) = true)
        as Hn by (rewrite Z.geb_leb; apply Z.leb_le; exact Hge).
      rewrite Hn in Hr. inversion Hr; subst. cbn. auto.
  - intros ->. change (case_r P a st1 = Some st2) in Hr.
    unfold case_r in Hr. inversion Hr; subst. cbn.
    destruct (update_region_from_string P (region (options st1)) a). auto.
  - intros ->. change (case_i P (m :: ms) st1 = Some st2) in Hr.
    unfold case_i in Hr. cbn [update_region_from_all_monitors fst snd Z.eqb] in Hr.
    destruct (update_region_interactively P (env st1) (region (options st1))
                (desktop_bounds m ms)) as [[res reg] w'].
    inversion Hr; subst. cbn. auto.
  - intros ->. change (case_w P st1 = Some st2) in Hr.
    unfold case_w in Hr.
    destruct (update_region_from_active_window P (env st1) (region (options st1)))
      as [[res reg] w'].
    inversion Hr; subst. cbn. auto.
  - intros Hres. unfold parse_options_on. rewrite monitor_count_cons, Hloop.
    eexists. split; [reflexivity|].
    rewrite fallback_idle by congruence.
    destruct (report_keeps P program_name st3) as (F1 & F2 & F3 & _).
    repeat split; congruence.
Qed.

(** [--monitor 5 --desktop -o f -x --window] on two monitors: the loop is
    over at [-x], and the outcome of the desktop resolver stands. *)
Lemma last_mode_flag_decides_witness :
  exists st3,
    parse_loop scripted "shot" two_monitors
      ([mk_result (chr "m") "5"] ++ mk_result (chr "d") ""
         :: [mk_result (chr "o") "f"; unknown] ++ [mk_result (chr "w") ""])
      (initial_state scripted two_monitors []) = Some st3
    /\ region_result st3 = 0
    /\ region (options st3) = mk_region 0 0 3200 1080.
Proof.
  destruct (last_mode_flag_decides scripted "shot"
              (mk_monitor 0 0 1920 1080 false) [mk_monitor 1920 0 1280 1024 false] []
              [mk_result (chr "m") "5"] [mk_result (chr "o") "f"; unknown]
              [mk_result (chr "w") ""] (mk_result (chr "d") "")
              (mk_state scripted
                 (mk_options 0 None (mk_region 40 40 640 480)) 3 []
                 [(stderr, invalid_monitor_text two_monitors)] [])
              eq_refl eq_refl eq_refl eq_refl eq_refl (or_intror eq_refl))
    as (st3 & Hloop & Hd & _).
  destruct (Hd eq_refl) as (Hcode & Hregion & _).
  exists st3. split; [exact Hloop|]. split; assumption.
Defined.

(** ** No mode flag *)

(** C2.  When the option loop ends with [region_result] still at -1 (no
    mode flag was handled), [parse_options] calls the all-monitors resolver
    on the monitors [m :: ms] and returns their bounding box with result
    code 0, the error flag as the loop left it; and with no argument on the
    monitors 1920x1080 at (0,0) and 1280x1024 at (1920,0) the region is
    3200x1080 at (0,0). *)
Theorem no_mode_flag_takes_desktop (P : Platform) (program_name : string)
  (m : Monitor) (ms : list Monitor) (w : world P)
  (rs : list getopt_result) (st : state P) :
  parse_loop P program_name (m :: ms) rs (initial_state P (m :: ms) w) = Some st ->
  region_result st = -1 ->
  (exists st',
      parse_options_on P program_name rs (m :: ms) w = Some st'
      /\ region (options st') = desktop_bounds m ms
      /\ region_result st' = 0
      /\ calls st' = (calls st ++ [call_all_monitors])%list
      /\ error (options st') = error (options st))
  /\ (exists st',
         parse_options P ["shot"] two_monitors w = Some st'
         /\ region (options st') = mk_region 0 0 3200 1080
         /\ error (options st') = 0
         /\ calls st' = [call_all_monitors]).
Proof.
  intros Hloop Hunset. split.
  - unfold parse_options_on. rewrite monitor_count_cons, Hloop.
    unfold fallback. rewrite Hunset. cbn [Z.eqb update_region_from_all_monitors].
    rewrite report_success by reflexivity.
    eexists. split; [reflexivity|]. cbn. auto.
  - eexists. split; [reflexivity|]. cbn. auto.
Qed.

(** [-o shot.png] alone on two monitors. *)
Lemma no_mode_flag_takes_desktop_witness :
  exists st',
    parse_options_on scripted "shot" [mk_result (chr "o") "shot.png"] two_monitors []
    = Some st'
    /\ region (options st') = mk_region 0 0 3200 1080
    /\ region_result st' = 0.
Proof.
  destruct (no_mode_flag_takes_desktop scripted "shot"
              (mk_monitor 0 0 1920 1080 false) [mk_monitor 1920 0 1280 1024 false] []
              [mk_result (chr "o") "shot.png"]
              (mk_state scripted
                 (mk_options 0 (Some "shot.png") (mk_region 40 40 640 480))
                 (-1) [] [] []))
    as ((st' & H & E1 & E2 & _) & _); try reflexivity.
  exists st'. repeat split; assumption.
Defined.

(** ** Validation in main *)

(** The calls of [parse_options] are resolver calls only. *)
Lemma parse_options_calls (P : Platform) (program_name : string)
  (rs : list getopt_result) (monitor_mgr : MonitorManager) (w : world P)
  (st : state P) :
  parse_options_on P program_name rs monitor_mgr w = Some st ->
  forallb (fun a => negb (is_capture a)) (calls st) = true.
Proof.
  unfold parse_options_on. destruct (monitor_count monitor_mgr =? 0); [discriminate|].
  destruct (parse_loop P program_name monitor_mgr rs (initial_state P monitor_mgr w))
    as [st1|] eqn:Hloop; [|discriminate].
  intros H. inversion H; subst; clear H.
  destruct (report_keeps P program_name (fallback P monitor_mgr st1)) as (_ & _ & -> & _).
  destruct (loop_calls P program_name monitor_mgr rs _ _ Hloop) as (k & Hk & Nk).
  cbn [initial_state calls app] in Hk.
  unfold fallback. destruct (region_result st1 =? -1); cbn [calls set_result called].
  - rewrite Hk, forallb_app, Nk. reflexivity.
  - rewrite Hk. exact Nk.
Qed.

(** When [parse_options] returns without error, the result code is 0. *)
Lemma parse_options_success (P : Platform) (program_name : string)
  (rs : list getopt_result) (monitor_mgr : MonitorManager) (w : world P)
  (st : state P) :
  parse_options_on P program_name rs monitor_mgr w = Some st ->
  error (options st) = 0 ->
  region_result st = 0.
Proof.
  unfold parse_options_on. destruct (monitor_count monitor_mgr =? 0); [discriminate|].
  destruct (parse_loop P program_name monitor_mgr rs (initial_state P monitor_mgr w))
    as [st1|]; [|discriminate].
  intros H. inversion H; subst; clear H.
  rewrite report_error.
  destruct (report_keeps P program_name (fallback P monitor_mgr st1)) as (_ & -> & _).
  destruct (region_result (fallback P monitor_mgr st1) =? 0) eqn:E.
  - intros _. apply Z.eqb_eq. exact E.
  - discriminate.
Qed.

(** C3.  Whatever mode produced the region that [parse_options] returns:
    a capture call that [main] makes is for that region, after a resolution
    without error, with width and height positive; when the resolution
    succeeded (no error, result code 0) and the width or the height is not
    positive, [main] prints the validation message, makes no capture call
    and exits with 1; and the validation message is none of the four
    messages for the resolvers' failure kinds. *)
Theorem validation_before_capture (P : Platform) (program_name : string)
  (rs : list getopt_result) (monitor_mgr : MonitorManager) (w : world P)
  (st : state P) :
  parse_options_on P program_name rs monitor_mgr w = Some st ->
  (forall o r,
      main_on P program_name rs monitor_mgr w = Some o ->
      In (call_grab_screenshot r) (made o) ->
      r = region (options st) /\ 0 < width r /\ 0 < height r
      /\ error (options st) = 0 /\ region_result st = 0)
  /\ (error (options st) = 0 ->
      region_result st = 0
      /\ (width (region (options st)) <= 0 \/ height (region (options st)) <= 0 ->
          main_on P program_name rs monitor_mgr w
          = Some (mk_outcome 1 (out st ++ [(stderr, validation_text)]) (calls st))))
  /\ forallb (fun a => negb (is_capture a)) (calls st) = true
  /\ ~ In validation_text
         [canceled_text; not_implemented_text; invalid_argument_text; other_text].
Proof.
  intros Hparse.
  pose proof (parse_options_calls P program_name rs monitor_mgr w st Hparse) as Hcalls.
  pose proof (parse_options_success P program_name rs monitor_mgr w st Hparse) as Hok.
  assert (Hnone : forall r, ~ In (call_grab_screenshot r) (calls st)).
  { intros r Hin. rewrite forallb_forall in Hcalls.
    specialize (Hcalls _ Hin). discriminate. }
  split; [|split; [|split]].
  - intros o r. unfold main_on. rewrite Hparse. unfold capture.
    destruct (error (options st) =? 0) eqn:Herr; cbn [negb].
    + apply Z.eqb_eq in Herr.
      destruct ((width (region (options st)) <=? 0)
                || (height (region (options st)) <=? 0))%bool eqn:Hsize.
      * intros Ho Hin. inversion Ho; subst; clear Ho. cbn [made] in Hin.
        exfalso. exact (Hnone r Hin).
      * apply orb_false_iff in Hsize. rewrite !Z.leb_gt in Hsize.
        destruct (grab_screenshot P (env st) (region (options st))); [|discriminate].
        intros Ho Hin.
        assert (Hmade : made o = (calls st ++
                  [call_grab_screenshot (region (options st));
                   call_save_to_png
                     (get_output_path P (env st) (output_path (options st)))])%list).
        { destruct (negb _) in Ho; inversion Ho; reflexivity. }
        rewrite Hmade in Hin. apply in_app_or in Hin. destruct Hin as [Hin | Hin].
        -- exfalso. exact (Hnone r Hin).
        -- cbn [In] in Hin. destruct Hin as [Hin | [Hin | []]]; [|discriminate].
           inversion Hin; subst. pose proof (Hok Herr). tauto.
    + intros Ho Hin. inversion Ho; subst; clear Ho. cbn [made] in Hin.
      exfalso. exact (Hnone r Hin).
  - intros Herr. split; [exact (Hok Herr)|].
    intros Hbad. unfold main_on. rewrite Hparse. unfold capture.
    rewrite Herr. cbn [Z.eqb negb].
    assert (((width (region (options st)) <=? 0)
             || (height (region (options st)) <=? 0))%bool = true) as ->.
    { apply orb_true_iff. rewrite !Z.leb_le. exact Hbad. }
    reflexivity.
  - exact Hcalls.
  - cbv. intros [H | [H | [H | [H | []]]]]; discriminate.
Qed.

(** A pointer selection that the user ends with a click in place: the
    committed region is 0x0 at (5,5). *)
Lemma validation_before_capture_witness :
  main_on scripted "shot" [mk_result (chr "i") ""] two_monitors [mk_region 5 5 0 0]
  = Some (mk_outcome 1 [(stderr, validation_text)]
            [call_all_monitors;
             call_interactively (mk_region 40 40 640 480) (mk_region 0 0 3200 1080)]).
Proof.
  pose proof (validation_before_capture scripted "shot" [mk_result (chr "i") ""]
                two_monitors [mk_region 5 5 0 0]
                (mk_state scripted (mk_options 0 None (mk_region 5 5 0 0)) 0 [] []
                   [call_all_monitors;
                    call_interactively (mk_region 40 40 640 480)
                      (mk_region 0 0 3200 1080)])
                eq_refl)
    as (_ & H & _).
  apply (proj2 (H eq_refl)). left. vm_compute. discriminate.
Defined.

(** ** The monitor index *)

Lemma to_int_small (z : Z) : - 2 ^ 31 <= z < 2 ^ 31 -> to_int z = z.
Proof.
  intros H. unfold to_int. change (2 ^ 31) with 2147483648 in *.
  change (2 ^ 32) with 4294967296. rewrite Z.mod_small; lia.
Qed.

Lemma atoi_range (s : string) : - 2 ^ 31 <= atoi s < 2 ^ 31.
Proof.
  unfold atoi, to_int. change (2 ^ 31) with 2147483648.
  change (2 ^ 32) with 4294967296.
  pose proof (Z.mod_pos_bound (strtol s + 2147483648) 4294967296). lia.
Qed.

(** A number within the range of [int] is read as it is written. *)
Lemma atoi_in_range (s : string) :
  - 2 ^ 31 <= number_in s < 2 ^ 31 -> atoi s = number_in s.
Proof.
  intros H. unfold atoi, strtol.
  change (2 ^ 31) with 2147483648 in H. change (2 ^ 63) with 9223372036854775808.
  rewrite Z.min_r, Z.max_r by lia.
  apply to_int_small. change (2 ^ 31) with 2147483648. lia.
Qed.

Lemma size_t_large (bits : Z) : 32 <= bits -> 2 ^ 32 <= 2 ^ bits.
Proof. intros H. apply Z.pow_le_mono_r; lia. Qed.

(** An index that is not negative is unchanged as a [size_t]. *)
Lemma to_unsigned_index (bits : Z) (s : string) :
  32 <= bits -> 0 <= atoi s -> to_unsigned bits (atoi s) = atoi s.
Proof.
  intros Hb Hs. unfold to_unsigned. pose proof (atoi_range s) as Hr.
  pose proof (size_t_large bits Hb) as Hp.
  change (2 ^ 31) with 2147483648 in Hr. change (2 ^ 32) with 4294967296 in Hp.
  apply Z.mod_small. lia.
Qed.

(** A negative index becomes a [size_t] of at least 2^31. *)
Lemma to_unsigned_negative (bits : Z) (s : string) :
  32 <= bits -> atoi s < 0 -> 2 ^ 31 <= to_unsigned bits (atoi s).
Proof.
  intros Hb Hs. unfold to_unsigned. pose proof (atoi_range s) as Hr.
  pose proof (size_t_large bits Hb) as Hp.
  change (2 ^ 31) with 2147483648 in *. change (2 ^ 32) with 4294967296 in Hp.
  assert (atoi s mod 2 ^ bits = atoi s + 2 ^ bits) as ->.
  { symmetry. apply Z.mod_unique with (q := -1); lia. }
  lia.
Qed.

(** C4 as stated fails: the index 4294967297 is not below the count of two
    monitors, yet [--monitor 4294967297] is not rejected: [atoi] keeps the
    low 32 bits, 1, the second monitor is selected and the run captures
    it. *)
Lemma index_beyond_int_selects_monitor :
  monitor_count two_monitors <= number_in "4294967297"
  /\ handle_option scripted "shot" two_monitors (mk_result (chr "m") "4294967297")
       (initial_state scripted two_monitors [])
     = Some (mk_state scripted (mk_options 0 None (mk_region 1920 0 1280 1024)) 0 []
               [] [call_monitor (mk_monitor 1920 0 1280 1024 false)])
  /\ main scripted ["shot"; "--monitor"; "4294967297"] (Some two_monitors) []
     = Some (mk_outcome 0 []
               [call_monitor (mk_monitor 1920 0 1280 1024 false);
                call_grab_screenshot (mk_region 1920 0 1280 1024);
                call_save_to_png "20261030_120000_abc.png"]).
Proof.
  split; [vm_compute; discriminate|]. split; reflexivity.
Qed.

(** C4, amended.  [--monitor arg] and [--monitor=arg] reach the case ['m']
    of the [switch] with [arg].  For an index written in [arg] that is not
    negative and fits an [int]: below [monitor_count] the turn of the
    [switch] calls the single-monitor resolver on that monitor, and the
    region becomes its rectangle with result code 0; from [monitor_count]
    on it makes no call, leaves the region, prints the message with the
    range up to [monitor_count - 1] and sets the result code to
    [ERR_INVALID_ARGUMENT]. *)
Theorem monitor_index_checked (P : Platform) (program_name : string)
  (monitor_mgr : MonitorManager) (arg : string) (st : state P) :
  32 <= size_t_bits P ->
  monitor_count monitor_mgr <= 2 ^ 31 ->
  0 <= number_in arg < 2 ^ 31 ->
  getopt_long short_opt long_opt ["--monitor"; arg] = [mk_result (chr "m") arg]
  /\ getopt_long short_opt long_opt ["--monitor=" ++ arg] = [mk_result (chr "m") arg]
  /\ (number_in arg < monitor_count monitor_mgr ->
      exists m,
        nth_error monitor_mgr (Z.to_nat (number_in arg)) = Some m
        /\ handle_option P program_name monitor_mgr (mk_result (chr "m") arg) st
           = Some (set_result P
                     (0, mk_region (mon_x m) (mon_y m) (mon_width m) (mon_height m))
                     (called P [call_monitor m] st)))
  /\ (monitor_count monitor_mgr <= number_in arg ->
      handle_option P program_name monitor_mgr (mk_result (chr "m") arg) st
      = Some (set_result P (ERR_INVALID_ARGUMENT P, region (options st))
                (print P stderr
                   ("Invalid monitor number.Valid monitor numbers = 0.."
                      ++ fmt_d (monitor_count monitor_mgr - 1) ++ nl) st))).
Proof.
  intros Hbits Hcount Harg.
  split; [reflexivity|]. split; [reflexivity|].
  assert (Hread : atoi arg = number_in arg) by (apply atoi_in_range; lia).
  change (handle_option P program_name monitor_mgr (mk_result (chr "m") arg) st)
    with (case_m P monitor_mgr arg st).
  unfold case_m. rewrite (to_unsigned_index _ arg Hbits) by lia.
  rewrite Hread. split.
  - intros Hlt.
    assert ((number_in arg >=? monitor_count monitor_mgr) = false) as ->
        by (rewrite Z.geb_leb; apply Z.leb_gt; exact Hlt).
    destruct (nth_error monitor_mgr (Z.to_nat (number_in arg))) as [m|] eqn:Hnth.
    + exists m. split; reflexivity.
    + apply nth_error_None in Hnth. unfold monitor_count in Hlt. lia.
  - intros Hge.
    assert ((number_in arg >=? monitor_count monitor_mgr) = true) as ->
        by (rewrite Z.geb_leb; apply Z.leb_le; exact Hge).
    unfold invalid_monitor_text. rewrite to_int_small; [reflexivity|].
    unfold monitor_count in *. lia.
Qed.

(** [--monitor 1] and [--monitor 2] on two monitors. *)
Lemma monitor_index_checked_witness :
  (exists m,
      nth_error two_monitors 1 = Some m
      /\ handle_option scripted "shot" two_monitors (mk_result (chr "m") "1")
           (initial_state scripted two_monitors [])
         = Some (set_result scripted
                   (0, mk_region (mon_x m) (mon_y m) (mon_width m) (mon_height m))
                   (called scripted [call_monitor m]
                      (initial_state scripted two_monitors []))))
  /\ handle_option scripted "shot" two_monitors (mk_result (chr "m") "2")
       (initial_state scripted two_monitors [])
     = Some (set_result scripted (3, mk_region 40 40 640 480)
               (print scripted stderr
                  ("Invalid monitor number.Valid monitor numbers = 0.." ++ "1" ++ nl)
                  (initial_state scripted two_monitors []))).
Proof.
  assert (Hbits : 32 <= size_t_bits scripted) by (vm_compute; discriminate).
  assert (Hcount : monitor_count two_monitors <= 2 ^ 31) by (vm_compute; discriminate).
  split.
  - assert (Harg : 0 <= number_in "1" < 2 ^ 31)
      by (split; [vm_compute; discriminate | reflexivity]).
    destruct (monitor_index_checked scripted "shot" two_monitors "1"
                (initial_state scripted two_monitors []) Hbits Hcount Harg)
      as (_ & _ & Hin & _).
    apply Hin. vm_compute. reflexivity.
  - assert (Harg : 0 <= number_in "2" < 2 ^ 31)
      by (split; [vm_compute; discriminate | reflexivity]).
    destruct (monitor_index_checked scripted "shot" two_monitors "2"
                (initial_state scripted two_monitors []) Hbits Hcount Harg)
      as (_ & _ & _ & Hout).
    apply Hout. vm_compute. discriminate.
Defined.

(** C10 as stated fails: [--monitor -4294967295] names a negative number,
    yet [atoi] keeps its low 32 bits, 1, and the second monitor is selected
    with result code 0 and without a message. *)
Lemma negative_number_selects_monitor :
  number_in "-4294967295" < 0
  /\ handle_option scripted "shot" two_monitors (mk_result (chr "m") "-4294967295")
       (initial_state scripted two_monitors [])
     = Some (mk_state scripted (mk_options 0 None (mk_region 1920 0 1280 1024)) 0 []
               [] [call_monitor (mk_monitor 1920 0 1280 1024 false)])
  /\ main scripted ["shot"; "--monitor"; "-4294967295"] (Some two_monitors) []
     = Some (mk_outcome 0 []
               [call_monitor (mk_monitor 1920 0 1280 1024 false);
                call_grab_screenshot (mk_region 1920 0 1280 1024);
                call_save_to_png "20261030_120000_abc.png"]).
Proof.
  split; [reflexivity|]. split; reflexivity.
Qed.

(** C10, amended.  For an argument of [--monitor] that names a negative
    number within the range of [int] (with a [size_t] of 32 bits or more
    and a monitor count within the [int] range): [atoi] reads that number,
    the index as a [size_t] is at least [monitor_count], and the turn of
    the [switch] prints the range message, sets the result code to
    [ERR_INVALID_ARGUMENT], leaves the region and calls no resolver. *)
Theorem negative_monitor_index_rejected (P : Platform) (program_name : string)
  (monitor_mgr : MonitorManager) (arg : string) (st : state P) :
  32 <= size_t_bits P ->
  monitor_count monitor_mgr <= 2 ^ 31 ->
  - 2 ^ 31 <= number_in arg < 0 ->
  atoi arg = number_in arg
  /\ monitor_count monitor_mgr <= to_unsigned (size_t_bits P) (atoi arg)
  /\ handle_option P program_name monitor_mgr (mk_result (chr "m") arg) st
     = Some (mk_state P
               (mk_options (error (options st)) (output_path (options st))
                  (region (options st)))
               (ERR_INVALID_ARGUMENT P) (env st)
               (out st ++ [(stderr, invalid_monitor_text monitor_mgr)])
               (calls st)).
Proof.
  intros Hbits Hcount Hneg.
  assert (Hread : atoi arg = number_in arg)
    by (apply atoi_in_range; change (2 ^ 31) with 2147483648 in *; lia).
  assert (Hlt : atoi arg < 0) by lia.
  pose proof (to_unsigned_negative _ arg Hbits Hlt) as Hbig.
  split; [exact Hread|]. split; [lia|].
  change (handle_option P program_name monitor_mgr (mk_result (chr "m") arg) st)
    with (case_m P monitor_mgr arg st).
  unfold case_m.
  assert ((to_unsigned (size_t_bits P) (atoi arg) >=? monitor_count monitor_mgr) = true)
    as -> by (rewrite Z.geb_leb; apply Z.leb_le; lia).
  reflexivity.
Qed.

(** [--monitor -1] on two monitors. *)
Lemma negative_monitor_index_rejected_witness :
  handle_option scripted "shot" two_monitors (mk_result (chr "m") "-1")
    (initial_state scripted two_monitors [])
  = Some (mk_state scripted (mk_options 0 None (mk_region 40 40 640 480)) 3 []
            [(stderr, invalid_monitor_text two_monitors)] []).
Proof.
  assert (Hbits : 32 <= size_t_bits scripted) by (vm_compute; discriminate).
  assert (Hcount : monitor_count two_monitors <= 2 ^ 31) by (vm_compute; discriminate).
  assert (Hneg : - 2 ^ 31 <= number_in "-1" < 0)
    by (split; [vm_compute; discriminate | reflexivity]).
  destruct (negative_monitor_index_rejected scripted "shot" two_monitors "-1"
              (initial_state scripted two_monitors []) Hbits Hcount Hneg)
    as (_ & _ & Hturn).
  exact Hturn.
Defined.

(** ** Failure of the resolution *)

Lemma codes_apart (P : Platform) :
  error_codes_ok P ->
  (ERR_CANCELED P <> 0 /\ ERR_CANCELED P <> -1)
  /\ (ERR_NOT_IMPLEMENTED P <> 0 /\ ERR_NOT_IMPLEMENTED P <> -1
      /\ ERR_NOT_IMPLEMENTED P <> ERR_CANCELED P)
  /\ (ERR_INVALID_ARGUMENT P <> 0 /\ ERR_INVALID_ARGUMENT P <> -1
      /\ ERR_INVALID_ARGUMENT P <> ERR_CANCELED P
      /\ ERR_INVALID_ARGUMENT P <> ERR_NOT_IMPLEMENTED P)
  /\ (ERR_OTHER P <> 0 /\ ERR_OTHER P <> -1
      /\ ERR_OTHER P <> ERR_CANCELED P
      /\ ERR_OTHER P <> ERR_NOT_IMPLEMENTED P
      /\ ERR_OTHER P <> ERR_INVALID_ARGUMENT P).
Proof.
  intros [Hd Hf].
  rewrite !NoDup_cons_iff in Hd. cbn [In] in Hd.
  rewrite !Forall_cons_iff in Hf.
  repeat split; try tauto; intros E; rewrite E in *; tauto.
Qed.

(** The error return of [parse_options] ends [main] with exit code 1 and
    without a further call. *)
Lemma capture_error (P : Platform) (st : state P) :
  error (options st) <> 0 ->
  capture P st = Some (mk_outcome 1 (out st) (calls st)).
Proof.
  intros H. unfold capture. apply Z.eqb_neq in H. rewrite H. reflexivity.
Qed.

(** C5.  With four different error codes, none 0 or -1: when the option
    loop ends with [region_result] at one of them, [parse_options] makes no
    further call (no fall-back, no second try), keeps the code, prints the
    message of that kind ("Canceled due to user input.", "Not implemented.
    Sorry...", "Invalid argument, aborting." with the usage hint, or "An
    error occurred, aborting.") and sets the error, and [main] exits with 1;
    and when the resolution succeeded with a width or height that is not
    positive, [main] exits with 1 after the validation message. *)
Theorem resolution_failure_exits_1 (P : Platform) (program_name : string)
  (rs : list getopt_result) (monitor_mgr : MonitorManager) (w : world P)
  (st : state P) :
  error_codes_ok P ->
  monitor_count monitor_mgr <> 0 ->
  parse_loop P program_name monitor_mgr rs (initial_state P monitor_mgr w) = Some st ->
  (forall e text,
      In (e, text)
        [ (ERR_CANCELED P, [(stderr, canceled_text)]);
          (ERR_NOT_IMPLEMENTED P, [(stderr, not_implemented_text)]);
          (ERR_INVALID_ARGUMENT P,
            [(stderr, invalid_argument_text); (stderr, usage_hint_text program_name)]);
          (ERR_OTHER P, [(stderr, other_text)]) ] ->
      region_result st = e ->
      (exists st',
          parse_options_on P program_name rs monitor_mgr w = Some st'
          /\ region_result st' = e
          /\ error (options st') = 1
          /\ calls st' = calls st
          /\ out st' = (out st ++ text)%list)
      /\ main_on P program_name rs monitor_mgr w
         = Some (mk_outcome 1 (out st ++ text) (calls st)))
  /\ (region_result st = 0 ->
      error (options st) = 0 ->
      width (region (options st)) <= 0 \/ height (region (options st)) <= 0 ->
      main_on P program_name rs monitor_mgr w
      = Some (mk_outcome 1 (out st ++ [(stderr, validation_text)]) (calls st))).
Proof.
  intros Hcodes Hcount Hloop.
  apply codes_apart in Hcodes.
  destruct Hcodes as ((C0 & C1) & (N0 & N1 & N2) & (I0 & I1 & I2 & I3)
                      & (O0 & O1 & O2 & O3 & O4)).
  apply Z.eqb_neq in Hcount.
  unfold main_on, parse_options_on. rewrite Hcount, Hloop. split.
  - intros e text Hin He.
    assert (Hreport :
              report P program_name (fallback P monitor_mgr st)
              = set_error P 1
                  (mk_state P (options st) e (env st) (out st ++ text) (calls st))).
    { cbn [In] in Hin.
      destruct Hin as [Hin | [Hin | [Hin | [Hin | []]]]];
        injection Hin as <- <-;
        rewrite fallback_idle by congruence; unfold report;
        rewrite He;
        repeat match goal with
               | |- context [?a =? ?a] => rewrite (Z.eqb_refl a)
               | H : ?a <> ?b |- context [?a =? ?b] =>
                   rewrite (proj2 (Z.eqb_neq a b) H)
               end;
        unfold show_usage_hint, print; cbn [options region_result env out calls];
        rewrite <- ?app_assoc, ?He; reflexivity. }
    rewrite Hreport. split.
    + eexists. split; [reflexivity|]. cbn. auto.
    + cbv beta iota. rewrite capture_error; [reflexivity | cbn; discriminate].
  - intros Hok Herr Hbad.
    rewrite fallback_idle by (rewrite Hok; discriminate).
    rewrite report_success by exact Hok.
    unfold capture. rewrite Herr. cbn [Z.eqb negb].
    assert (((width (region (options st)) <=? 0)
             || (height (region (options st)) <=? 0))%bool = true) as ->.
    { apply orb_true_iff. rewrite !Z.leb_le. exact Hbad. }
    reflexivity.
Qed.

Lemma scripted_codes_ok : error_codes_ok scripted.
Proof.
  split.
  - repeat constructor; cbn; intuition discriminate.
  - repeat constructor; discriminate.
Defined.

(** [--window] where the focused window cannot be queried. *)
Lemma resolution_failure_exits_1_witness :
  main_on scripted "shot" [mk_result (chr "w") ""] two_monitors []
  = Some (mk_outcome 1 [(stderr, not_implemented_text)] [call_active_window]).
Proof.
  assert (Hcount : monitor_count two_monitors <> 0) by (vm_compute; discriminate).
  destruct (resolution_failure_exits_1 scripted "shot" [mk_result (chr "w") ""]
              two_monitors []
              (mk_state scripted (mk_options 0 None (mk_region 40 40 640 480)) 1 []
                 [] [call_active_window])
              scripted_codes_ok Hcount eq_refl) as [Hfail _].
  destruct (Hfail 1 [(stderr, not_implemented_text)]) as [_ Hmain].
  - right. left. reflexivity.
  - reflexivity.
  - exact Hmain.
Defined.

(** ** Interactive mode *)

(** C6.  [-i] and [--interactive] both reach the case ['i'] of the
    [switch]; on the monitors [m :: ms] the all-monitors resolver succeeds
    with their bounding box whatever the region it is given holds, so the
    assertion passes, and the pointer selection is called with the current
    region and that bounding box as its working area; its code and region
    become the result. *)
Theorem interactive_works_on_desktop (P : Platform) (program_name : string)
  (m : Monitor) (ms : list Monitor) (arg : string) (st : state P) :
  getopt_long short_opt long_opt ["-i"] = [mk_result (chr "i") ""]
  /\ getopt_long short_opt long_opt ["--interactive"] = [mk_result (chr "i") ""]
  /\ (forall r, update_region_from_all_monitors P r (m :: ms) = (0, desktop_bounds m ms))
  /\ handle_option P program_name (m :: ms) (mk_result (chr "i") arg) st
     = Some (let '(res, r, w) :=
               update_region_interactively P (env st) (region (options st))
                 (desktop_bounds m ms) in
             set_env P w
               (set_result P (res, r)
                  (called P
                     [call_all_monitors;
                      call_interactively (region (options st)) (desktop_bounds m ms)]
                     st))).
Proof.
  repeat split.
  change (handle_option P program_name (m :: ms) (mk_result (chr "i") arg) st)
    with (case_i P (m :: ms) st).
  unfold case_i. cbn [update_region_from_all_monitors fst snd Z.eqb].
  destruct (update_region_interactively P (env st) (region (options st))
              (desktop_bounds m ms)) as [[res r] w'].
  reflexivity.
Qed.

(** ** The initial region *)

Lemma init_region_loop_none (ms : list Monitor) :
  forall r, forallb (fun m => negb (primary m)) ms = true ->
            init_region_loop r ms = r.
Proof.
  induction ms as [|m ms IH]; intros r H; cbn [init_region_loop]; [reflexivity|].
  cbn [forallb] in H. apply andb_true_iff in H. destruct H as [Hm Hms].
  apply negb_true_iff in Hm. rewrite Hm. apply IH. exact Hms.
Qed.

Lemma init_region_loop_last (pre : list Monitor) (m : Monitor) (post : list Monitor) :
  forall r,
    primary m = true ->
    forallb (fun m' => negb (primary m')) post = true ->
    init_region_loop r (pre ++ m :: post)
    = mk_region (mon_x m + Z.quot (mon_width m - width r) 2)
                (mon_y m + Z.quot (mon_height m - height r) 2)
                (width r) (height r).
Proof.
  induction pre as [|p pre IH]; intros r Hm Hpost; cbn [app init_region_loop].
  - rewrite Hm. apply init_region_loop_none. exact Hpost.
  - destruct (primary p); rewrite IH by assumption; reflexivity.
Qed.

(** C7 as stated fails: with no primary monitor the initial region is not
    centered on the first monitor, it stays at (40,40). *)
Lemma first_monitor_not_centered :
  forallb (fun m => negb (primary m)) two_monitors = true
  /\ init_region two_monitors = mk_region 40 40 640 480
  /\ init_region two_monitors <> centered_on (mk_monitor 0 0 1920 1080 false).
Proof.
  repeat split. discriminate.
Qed.

(** C7, amended.  With no monitor marked primary the initial region is
    640x480 at (40,40), whatever the monitors; when a monitor is marked
    primary, it is the 640x480 region centered on the last monitor so
    marked (the primary monitor, when only one is marked). *)
Theorem init_region_centering (monitor_mgr : MonitorManager) :
  (forallb (fun m => negb (primary m)) monitor_mgr = true ->
   init_region monitor_mgr = mk_region 40 40 640 480)
  /\ (forall pre m post,
         monitor_mgr = (pre ++ m :: post)%list ->
         primary m = true ->
         forallb (fun m' => negb (primary m')) post = true ->
         init_region monitor_mgr = centered_on m).
Proof.
  split.
  - intros H. apply init_region_loop_none. exact H.
  - intros pre m post -> Hm Hpost. unfold init_region.
    rewrite init_region_loop_last by assumption. reflexivity.
Qed.

(** Two monitors without a primary one; then the second marked primary. *)
Lemma init_region_centering_witness :
  init_region two_monitors = mk_region 40 40 640 480
  /\ init_region [mk_monitor 0 0 1920 1080 false; mk_monitor 1920 0 1280 1024 true]
     = mk_region 2240 272 640 480.
Proof.
  split.
  - apply (proj1 (init_region_centering two_monitors)). reflexivity.
  - apply (proj2 (init_region_centering
                    [mk_monitor 0 0 1920 1080 false; mk_monitor 1920 0 1280 1024 true])
             [mk_monitor 0 0 1920 1080 false] (mk_monitor 1920 0 1280 1024 true) []);
      reflexivity.
Defined.

(** ** The short flag for a monitor *)

(** C8.  The letter [m] is not in the short option string, so [-m 0] comes
    back from [getopt_long] as ['?']: [parse_options] prints the usage
    hint, sets the error, and the only resolver called is the fall-back;
    [--monitor 0] reaches the case ['m'], calls the single-monitor resolver
    and returns the first monitor's rectangle without error. *)
Theorem short_monitor_flag_rejected (P : Platform) (w : world P) :
  find_short "m" short_opt = None
  /\ getopt_long short_opt long_opt ["-m"; "0"] = [mk_result (chr "?") ""]
  /\ getopt_long short_opt long_opt ["--monitor"; "0"] = [mk_result (chr "m") "0"]
  /\ (exists st,
         parse_options P ["shot"; "-m"; "0"] two_monitors w = Some st
         /\ error (options st) = 1
         /\ out st = [(stderr, usage_hint_text "shot")]
         /\ calls st = [call_all_monitors])
  /\ (exists st,
         parse_options P ["shot"; "--monitor"; "0"] two_monitors w = Some st
         /\ error (options st) = 0
         /\ out st = []
         /\ region (options st) = mk_region 0 0 1920 1080
         /\ calls st = [call_monitor (mk_monitor 0 0 1920 1080 false)]).
Proof.
  split; [reflexivity|]. split; [reflexivity|]. split; [reflexivity|]. split.
  - eexists. split; [reflexivity|]. cbn. auto.
  - eexists. split; [reflexivity|]. cbn. auto.
Qed.

(** ** Help *)

(** C9 as stated fails: with [-h] alone the all-monitors resolver is still
    called once the loop is over, and with [--window -h] the focused-window
    resolver has been called before the usage text is reached. *)
Lemma help_does_not_bypass_resolution :
  (exists st,
      parse_options scripted ["shot"; "-h"] two_monitors [] = Some st
      /\ out st = [(stdout, usage_text)]
      /\ calls st = [call_all_monitors])
  /\ (exists st,
         parse_options scripted ["shot"; "--window"; "-h"] two_monitors [] = Some st
         /\ calls st = [call_active_window]).
Proof.
  split; eexists; (split; [reflexivity|]); cbn; auto.
Qed.

(** C9, amended.  When the option loop reaches the value for [-h] or
    [--help] after going through [pre], it prints the usage text and stops:
    nothing that follows is handled, so no resolver is called for a later
    flag.  The resolvers of the mode flags in [pre] have been called; when
    there was none the all-monitors fall-back is still called after the
    loop.  [main] then exits with 1 and without capture. *)
Theorem help_stops_the_loop (P : Platform) (program_name : string)
  (monitor_mgr : MonitorManager) (w : world P)
  (pre post : list getopt_result) (arg : string) (st1 : state P) :
  monitor_count monitor_mgr <> 0 ->
  no_end pre = true ->
  parse_loop P program_name monitor_mgr pre (initial_state P monitor_mgr w) = Some st1 ->
  error (options st1) = 0 ->
  parse_loop P program_name monitor_mgr (pre ++ mk_result (chr "h") arg :: post)
    (initial_state P monitor_mgr w)
  = Some (set_error P (-1) (print P stdout usage_text st1))
  /\ exists o text,
      main_on P program_name (pre ++ mk_result (chr "h") arg :: post) monitor_mgr w
      = Some o
      /\ exit_code o = 1
      /\ printed o = (out st1 ++ (stdout, usage_text) :: text)%list
      /\ made o = (calls st1
                   ++ (if region_result st1 =? -1 then [call_all_monitors] else []))%list.
Proof.
  intros Hcount Hend Hpre Herr.
  assert (Hloop :
            parse_loop P program_name monitor_mgr (pre ++ mk_result (chr "h") arg :: post)
              (initial_state P monitor_mgr w)
            = Some (set_error P (-1) (print P stdout usage_text st1))).
  { rewrite (loop_app P program_name monitor_mgr pre _ _ st1 Hend Hpre Herr).
    cbn [parse_loop]. rewrite Herr.
    change (handle_option P program_name monitor_mgr (mk_result (chr "h") arg) st1)
      with (Some (set_error P (-1) (print P stdout usage_text st1))).
    cbn [Z.eqb c chr]. destruct post; reflexivity. }
  split; [exact Hloop|].
  unfold main_on, parse_options_on. apply Z.eqb_neq in Hcount. rewrite Hcount, Hloop.
  set (st2 := fallback P monitor_mgr (set_error P (-1) (print P stdout usage_text st1))).
  assert (Hcalls : calls st2 = (calls st1
            ++ (if region_result st1 =? -1 then [call_all_monitors] else []))%list).
  { unfold st2, fallback. cbn [region_result set_error print].
    destruct (region_result st1 =? -1); cbn; [reflexivity | rewrite app_nil_r; reflexivity]. }
  assert (Hout : out st2 = (out st1 ++ [(stdout, usage_text)])%list).
  { unfold st2, fallback. cbn [region_result set_error print].
    destruct (region_result st1 =? -1); reflexivity. }
  assert (Hst2 : error (options st2) = -1).
  { unfold st2, fallback. cbn [region_result set_error print].
    destruct (region_result st1 =? -1); reflexivity. }
  assert (Hfinal : error (options (report P program_name st2)) <> 0).
  { rewrite report_error. destruct (region_result st2 =? 0); [rewrite Hst2|]; discriminate. }
  rewrite (capture_error P _ Hfinal).
  destruct (report_keeps P program_name st2) as (_ & _ & Hc & _).
  assert (Htext : exists text, out (report P program_name st2) = (out st2 ++ text)%list).
  { unfold report.
    repeat match goal with
           | |- context [if ?b then _ else _] => destruct b
           end; cbn [out set_error print show_usage_hint];
      rewrite <- ?app_assoc;
      first [ exists []; rewrite app_nil_r; reflexivity | eexists; reflexivity ]. }
  destruct Htext as (text & Htext).
  eexists. exists text. split; [reflexivity|]. cbn [exit_code printed made].
  rewrite Hc, Hcalls, Htext, Hout, <- app_assoc. auto.
Qed.

(** [--window -h --desktop]: the desktop resolver is not called. *)
Lemma help_stops_the_loop_witness :
  parse_loop scripted "shot" two_monitors
    ([mk_result (chr "w") ""] ++ mk_result (chr "h") "" :: [mk_result (chr "d") ""])
    (initial_state scripted two_monitors [])
  = Some (mk_state scripted (mk_options (-1) None (mk_region 40 40 640 480)) 1 []
            [(stdout, usage_text)] [call_active_window]).
Proof.
  assert (Hcount : monitor_count two_monitors <> 0) by (vm_compute; discriminate).
  apply (help_stops_the_loop scripted "shot" two_monitors []
           [mk_result (chr "w") ""] [mk_result (chr "d") ""] ""
           (mk_state scripted (mk_options 0 None (mk_region 40 40 640 480)) 1 []
              [] [call_active_window])
           Hcount eq_refl eq_refl eq_refl).
Defined.

(** * Further properties of the code *)

(** ** init_region, continued *)

Lemma init_region_loop_size (ms : list Monitor) :
  forall r, width (init_region_loop r ms) = width r
            /\ height (init_region_loop r ms) = height r.
Proof.
  induction ms as [|m ms IH]; intros r; cbn [init_region_loop]; [auto|].
  destruct (primary m); [|apply IH].
  destruct (IH (mk_region (mon_x m + Z.quot (mon_width m - width r) 2)
                  (mon_y m + Z.quot (mon_height m - height r) 2)
                  (width r) (height r))) as [Hw Hh].
  cbn [width height] in Hw, Hh. auto.
Qed.

(** X1.  Whatever the monitors, their number, their sizes and their primary
    marks, the initial region is 640 wide and 480 high. *)
Theorem init_region_size (monitor_mgr : MonitorManager) :
  width (init_region monitor_mgr) = 640 /\ height (init_region monitor_mgr) = 480.
Proof.
  unfold init_region. apply (init_region_loop_size monitor_mgr (mk_region 40 40 640 480)).
Qed.

Lemma half_balanced (a : Z) : -1 <= a - 2 * Z.quot a 2 <= 1.
Proof.
  pose proof (Z.quot_rem' a 2) as Hq.
  pose proof (Z.rem_bound_abs a 2) as Hr. lia.
Qed.

Lemma half_inside (a : Z) : 0 <= a -> 0 <= Z.quot a 2 <= a.
Proof.
  intros Ha. pose proof (Z.quot_rem' a 2) as Hq.
  pose proof (Z.rem_bound_pos a 2 Ha) as Hr.
  pose proof (Z.quot_pos a 2 Ha). lia.
Qed.

(** X2.  With a primary monitor [m] (the last one so marked), the margins
    that the initial region leaves on the left and on the right of [m]
    differ by one pixel at most, and so do the margins above and below,
    also on a monitor smaller than the region. *)
Theorem init_region_margins (pre post : list Monitor) (m : Monitor) :
  primary m = true ->
  forallb (fun m' => negb (primary m')) post = true ->
  let r := init_region (pre ++ m :: post)%list in
  -1 <= (mon_x m + mon_width m - (x r + width r)) - (x r - mon_x m) <= 1
  /\ -1 <= (mon_y m + mon_height m - (y r + height r)) - (y r - mon_y m) <= 1.
Proof.
  intros Hm Hpost r. subst r. unfold init_region.
  rewrite init_region_loop_last by assumption. cbn [x y width height].
  pose proof (half_balanced (mon_width m - 640)).
  pose proof (half_balanced (mon_height m - 480)). lia.
Qed.

Lemma init_region_margins_witness :
  let r := init_region ([mk_monitor 0 0 1920 1080 false]
                          ++ mk_monitor 1920 0 1281 1024 true :: [])%list in
  -1 <= (1920 + 1281 - (x r + width r)) - (x r - 1920) <= 1
  /\ -1 <= (0 + 1024 - (y r + height r)) - (y r - 0) <= 1.
Proof.
  apply (init_region_margins [mk_monitor 0 0 1920 1080 false] []
           (mk_monitor 1920 0 1281 1024 true)); reflexivity.
Defined.

(** X3.  When the primary monitor [m] (the last one so marked) is at least
    640 wide and 480 high, the initial region lies inside it. *)
Theorem init_region_inside_primary (pre post : list Monitor) (m : Monitor) :
  primary m = true ->
  forallb (fun m' => negb (primary m')) post = true ->
  640 <= mon_width m ->
  480 <= mon_height m ->
  let r := init_region (pre ++ m :: post)%list in
  mon_x m <= x r /\ x r + width r <= mon_x m + mon_width m
  /\ mon_y m <= y r /\ y r + height r <= mon_y m + mon_height m.
Proof.
  intros Hm Hpost Hw Hh r. subst r. unfold init_region.
  rewrite init_region_loop_last by assumption. cbn [x y width height].
  pose proof (half_inside (mon_width m - 640)).
  pose proof (half_inside (mon_height m - 480)). lia.
Qed.

Lemma init_region_inside_primary_witness :
  let r := init_region ([] ++ mk_monitor 100 50 641 480 true
                          :: [mk_monitor 741 50 800 600 false])%list in
  100 <= x r /\ x r + width r <= 100 + 641
  /\ 50 <= y r /\ y r + height r <= 50 + 480.
Proof.
  apply (init_region_inside_primary [] [mk_monitor 741 50 800 600 false]
           (mk_monitor 100 50 641 480 true));
    first [reflexivity | vm_compute; discriminate].
Defined.

(** ** get_random_name and get_output_path *)

Lemma length_app (a b : string) :
  String.length (a ++ b) = (String.length a + String.length b)%nat.
Proof.
  induction a as [|ch a IH]; cbn [append String.length]; [reflexivity|].
  rewrite IH. reflexivity.
Qed.

Lemma string_app_assoc (a b d : string) : (a ++ b) ++ d = a ++ (b ++ d).
Proof.
  induction a as [|ch a IH]; cbn [append]; congruence.
Qed.

Lemma string_app_nil (a : string) : a ++ EmptyString = a.
Proof.
  induction a as [|ch a IH]; cbn [append]; congruence.
Qed.

Lemma last_char_none (a : string) : last_char a = None -> a = EmptyString.
Proof.
  induction a as [|ch a IH]; [reflexivity|]. cbn [last_char].
  destruct a; [discriminate|]. intros H. specialize (IH H). discriminate.
Qed.

Lemma last_char_app (a b : string) :
  b <> EmptyString -> last_char (a ++ b) = last_char b.
Proof.
  intros Hb. induction a as [|ch a IH]; cbn [append]; [reflexivity|].
  cbn [last_char]. destruct (a ++ b) eqn:E; [|exact IH].
  destruct a; cbn [append] in E; [contradiction | discriminate].
Qed.

Lemma prefix_app (a b : string) : prefix a (a ++ b) = true.
Proof.
  induction a as [|ch a IH]; cbn [append prefix]; [destruct b; reflexivity|].
  destruct (ascii_dec ch ch); [exact IH | contradiction].
Qed.

Lemma random_char_lower (r : Z) : 0 <= r -> is_lower (random_char r) = true.
Proof.
  intros Hr. unfold is_lower, random_char, to_unsigned.
  change (122 + 1 - 97) with 26. change (2 ^ 8) with 256.
  pose proof (Z.rem_bound_pos r 26 Hr) as Hb.
  rewrite Z.mod_small by lia.
  rewrite nat_ascii_embedding by lia.
  apply andb_true_iff. split; apply Nat.leb_le; lia.
Qed.

(** X4.  For a time of at most 19 characters (what [strftime] can leave in
    the 20-byte buffer) and values of [rand()] that are not negative, the
    generated name is the time, an underscore, three lower-case letters and
    [.png]; with its terminator it takes at most 28 of the 30 bytes
    allocated for it, and it does not end in a path separator. *)
Theorem random_name_shape (time_str : string) (r0 r1 r2 : Z) :
  (String.length time_str <= 19)%nat ->
  0 <= r0 -> 0 <= r1 -> 0 <= r2 ->
  random_name time_str r0 r1 r2
  = time_str ++ "_"
      ++ String (random_char r0) (String (random_char r1) (String (random_char r2) ".png"))
  /\ is_lower (random_char r0) = true
  /\ is_lower (random_char r1) = true
  /\ is_lower (random_char r2) = true
  /\ String.length (random_name time_str r0 r1 r2) = (String.length time_str + 8)%nat
  /\ (String.length (random_name time_str r0 r1 r2) + 1 <= 28)%nat
  /\ last_char (random_name time_str r0 r1 r2) = Some "g"%char.
Proof.
  intros Hlen H0 H1 H2.
  assert (Hname :
            random_name time_str r0 r1 r2
            = time_str ++ "_"
                ++ String (random_char r0)
                     (String (random_char r1) (String (random_char r2) ".png"))).
  { unfold random_name. cbn [fold_left].
    rewrite !string_app_assoc. reflexivity. }
  split; [exact Hname|].
  repeat (split; [apply random_char_lower; assumption|]).
  assert (Hsize : String.length (random_name time_str r0 r1 r2)
                  = (String.length time_str + 8)%nat).
  { rewrite Hname, length_app. reflexivity. }
  split; [exact Hsize|]. split; [lia|].
  rewrite Hname, last_char_app by discriminate. reflexivity.
Qed.

Lemma random_name_shape_witness :
  random_name "20261030_120000" 0 27 51 = "20261030_120000_abz.png".
Proof.
  assert (Hlen : (String.length "20261030_120000" <= 19)%nat)
    by (apply Nat.leb_le; reflexivity).
  assert (H0 : 0 <= 0) by discriminate.
  assert (H1 : 0 <= 27) by discriminate.
  assert (H2 : 0 <= 51) by discriminate.
  destruct (random_name_shape "20261030_120000" 0 27 51 Hlen H0 H1 H2) as [Hname _].
  rewrite Hname. reflexivity.
Defined.

(** X5.  When the generated name does not end in a path separator, no path
    that [get_output_path] returns does: it names a file, whether the user
    gave no path, an empty one, a directory or a file. *)
Theorem output_path_names_a_file (P : Platform) (w : world P) (path : option string) :
  (exists a, last_char (get_random_name P w) = Some a /\ is_separator a = false) ->
  exists a, last_char (get_output_path P w path) = Some a /\ is_separator a = false.
Proof.
  intros (g & Hg & Hsep). unfold get_output_path.
  destruct path as [p|]; [|eauto].
  destruct (last_char p) as [a|] eqn:Hlast; [|eauto].
  destruct (is_separator a) eqn:Ha; [|eauto].
  exists g. split; [|exact Hsep].
  rewrite last_char_app; [exact Hg|].
  intros E. rewrite E in Hg. discriminate.
Qed.

Lemma output_path_names_a_file_witness :
  exists a,
    last_char (get_output_path scripted [] (Some "shots/")) = Some a
    /\ is_separator a = false.
Proof.
  apply (output_path_names_a_file scripted [] (Some "shots/")).
  exists "g"%char. split; reflexivity.
Defined.

(** X6.  A path that the user gave is kept at the front of the result:
    the result is the path itself unless the path is empty or ends in [/]
    or a backslash, and then the generated name is appended to it. *)
Theorem output_path_extends_path (P : Platform) (w : world P) (p : string) :
  prefix p (get_output_path P w (Some p)) = true
  /\ (get_output_path P w (Some p) = p
      \/ ((p = EmptyString
           \/ exists a, last_char p = Some a /\ is_separator a = true)
          /\ get_output_path P w (Some p) = p ++ get_random_name P w)).
Proof.
  unfold get_output_path.
  destruct (last_char p) as [a|] eqn:Hlast.
  - destruct (is_separator a) eqn:Ha.
    + split; [apply prefix_app|]. right. split; [|reflexivity]. right. eauto.
    + split; [|left; reflexivity].
      rewrite <- (string_app_nil p) at 2. apply prefix_app.
  - rewrite (last_char_none p Hlast).
    split; [apply (prefix_app EmptyString)|]. right. split; [left|]; reflexivity.
Qed.

(** ** parse_options and main: assertions and the exit code *)

Lemma loop_total (P : Platform) (program_name : string)
  (m : Monitor) (ms : list Monitor) (rs : list getopt_result) :
  forall st : state P,
    exists st', parse_loop P program_name (m :: ms) rs st = Some st'.
Proof.
  induction rs as [|r rest IH]; intros st; cbn [parse_loop].
  - destruct (error (options st) =? 0); eauto.
  - destruct (error (options st) =? 0); [|eauto].
    destruct (c r =? -1); [eauto|].
    destruct (handle_total P program_name m ms r st) as (st1 & ->). apply IH.
Qed.

(** X7.  With at least one monitor, [parse_options] comes back whatever
    [getopt_long] returns and whatever the platform's resolvers do: the
    index of [--monitor] is inside [monitors] whenever that array is read,
    and the assertion on the working area of [-i] holds (with the
    all-monitors resolver of section 4.3 of the spec).  With no monitor it
    stops at its assertion on [monitor_count]. *)
Theorem parse_options_returns (P : Platform) (program_name : string)
  (rs : list getopt_result) (m : Monitor) (ms : list Monitor) (w : world P) :
  (exists st, parse_options_on P program_name rs (m :: ms) w = Some st)
  /\ parse_options_on P program_name rs [] w = None.
Proof.
  split; [|reflexivity].
  unfold parse_options_on. rewrite monitor_count_cons.
  destruct (loop_total P program_name m ms rs (initial_state P (m :: ms) w))
    as (st & ->). eauto.
Qed.

(** X8.  [main] exits with 0 or 1, and with 0 only when [parse_options]
    returned without error a region of positive width and height, the
    screen was grabbed for that region, saving to the path made from
    [options.output_path] returned 0, and [main] itself printed nothing. *)
Theorem exit_code_zero (P : Platform) (program_name : string)
  (rs : list getopt_result) (monitor_mgr : MonitorManager) (w : world P)
  (o : outcome) :
  main_on P program_name rs monitor_mgr w = Some o ->
  (exit_code o = 0 \/ exit_code o = 1)
  /\ (exit_code o = 0 ->
      exists st b,
        parse_options_on P program_name rs monitor_mgr w = Some st
        /\ error (options st) = 0
        /\ region_result st = 0
        /\ 0 < width (region (options st))
        /\ 0 < height (region (options st))
        /\ grab_screenshot P (env st) (region (options st)) = Some b
        /\ bitmap_save_to_png P (env st) b
             (get_output_path P (env st) (output_path (options st))) = 0
        /\ made o
           = (calls st
              ++ [call_grab_screenshot (region (options st));
                  call_save_to_png
                    (get_output_path P (env st) (output_path (options st)))])%list
        /\ printed o = out st).
Proof.
  unfold main_on.
  destruct (parse_options_on P program_name rs monitor_mgr w) as [st|] eqn:Hparse;
    [|discriminate].
  pose proof (parse_options_success P program_name rs monitor_mgr w st Hparse) as Hok.
  unfold capture.
  destruct (error (options st) =? 0) eqn:Herr; cbn [negb].
  - apply Z.eqb_eq in Herr.
    destruct ((width (region (options st)) <=? 0)
              || (height (region (options st)) <=? 0))%bool eqn:Hsize.
    + intros Ho. inversion Ho; subst; clear Ho. cbn [exit_code].
      split; [auto | discriminate].
    + apply orb_false_iff in Hsize. rewrite !Z.leb_gt in Hsize.
      destruct (grab_screenshot P (env st) (region (options st))) as [b|] eqn:Hgrab;
        [|discriminate].
      destruct (bitmap_save_to_png P (env st) b
                  (get_output_path P (env st) (output_path (options st))) =? 0)
        eqn:Hsave; cbn [negb];
        intros Ho; inversion Ho; subst; clear Ho; cbn [exit_code made printed].
      * apply Z.eqb_eq in Hsave. split; [auto|]. intros _.
        exists st, b. repeat split; auto; tauto.
      * split; [auto | discriminate].
  - intros Ho. inversion Ho; subst; clear Ho. cbn [exit_code].
    split; [auto | discriminate].
Qed.

Lemma exit_code_zero_witness :
  exit_code (mk_outcome 0 []
               [call_monitor (mk_monitor 1920 0 1280 1024 false);
                call_grab_screenshot (mk_region 1920 0 1280 1024);
                call_save_to_png "out.png"]) = 0
  \/ exit_code (mk_outcome 0 []
                  [call_monitor (mk_monitor 1920 0 1280 1024 false);
                   call_grab_screenshot (mk_region 1920 0 1280 1024);
                   call_save_to_png "out.png"]) = 1.
Proof.
  apply (exit_code_zero scripted "shot"
           [mk_result (chr "o") "out.png"; mk_result (chr "m") "1"]
           two_monitors []
           (mk_outcome 0 []
              [call_monitor (mk_monitor 1920 0 1280 1024 false);
               call_grab_screenshot (mk_region 1920 0 1280 1024);
               call_save_to_png "out.png"])
           eq_refl).
Defined.

(** ** What is written, and the error flag *)

(** One turn of the [switch] either writes to [stderr] only and leaves the
    error flag or sets it to 1, or it writes the usage text to [stdout] and
    sets the flag to -1. *)
Lemma handle_effects (P : Platform) (program_name : string)
  (monitor_mgr : MonitorManager) (r : getopt_result) (st st' : state P) :
  handle_option P program_name monitor_mgr r st = Some st' ->
  exists k, out st' = (out st ++ k)%list
    /\ ((forallb (fun l => negb (is_stdout l)) k = true
         /\ (error (options st') = error (options st) \/ error (options st') = 1))
        \/ (k = [(stdout, usage_text)] /\ error (options st') = -1)).
Proof.
  unfold handle_option, case_d, case_m, case_r, case_i, case_w. intros H.
  repeat match type of H with
         | context [if ?b then _ else _] => destruct b
         | context [match ?e with _ => _ end] => destruct e
         end;
    inversion H; subst; cbn; rewrite <- ?app_assoc;
    first [ exists []; split; [rewrite app_nil_r; reflexivity | left; auto]
          | eexists; split; [reflexivity | left; split; [reflexivity | auto]]
          | eexists; split; [reflexivity | right; split; reflexivity] ].
Qed.

Lemma filter_stderr (k : list (stream * string)) :
  forallb (fun l => negb (is_stdout l)) k = true -> filter is_stdout k = [].
Proof.
  induction k as [|l k IH]; cbn [forallb filter]; [reflexivity|].
  intros H. apply andb_true_iff in H. destruct H as [Hl Hk].
  apply negb_true_iff in Hl. rewrite Hl. apply IH. exact Hk.
Qed.

Lemma loop_keeps_ok (P : Platform) (program_name : string)
  (monitor_mgr : MonitorManager) (rs : list getopt_result) :
  forall st st' : state P,
    parse_loop P program_name monitor_mgr rs st = Some st' ->
    stdout_ok st -> error_ok st -> stdout_ok st' /\ error_ok st'.
Proof.
  induction rs as [|r rest IH]; intros st st' H Hs He; cbn [parse_loop] in H.
  - destruct (error (options st) =? 0); inversion H; subst; auto.
  - destruct (error (options st) =? 0) eqn:E0; [|inversion H; subst; auto].
    destruct (c r =? -1); [inversion H; subst; auto|].
    destruct (handle_option P program_name monitor_mgr r st) as [st1|] eqn:Hh;
      [|discriminate].
    apply Z.eqb_eq in E0.
    destruct (handle_effects P program_name monitor_mgr r st st1 Hh)
      as (k & Hout & Hk).
    assert (Hquiet : filter is_stdout (out st) = [])
      by (destruct Hs as [Hs | [_ Hs]]; [exact Hs | contradiction]).
    apply (IH st1 st' H).
    + unfold stdout_ok. rewrite Hout, filter_app, Hquiet.
      destruct Hk as [[Hk _] | [-> Herr]].
      * left. rewrite (filter_stderr k Hk). reflexivity.
      * right. rewrite Herr. split; [reflexivity | discriminate].
    + unfold error_ok. rewrite Hout.
      destruct Hk as [[_ [Herr | Herr]] | [-> Herr]].
      * left. congruence.
      * right. left. exact Herr.
      * right. right. split; [exact Herr|]. apply in_or_app. right. left. reflexivity.
Qed.

(** Reporting writes to [stderr] only. *)
Lemma report_out (P : Platform) (program_name : string) (st : state P) :
  exists k, out (report P program_name st) = (out st ++ k)%list
    /\ forallb (fun l => negb (is_stdout l)) k = true.
Proof.
  unfold report.
  repeat match goal with
         | |- context [if ?b then _ else _] => destruct b
         end; cbn; rewrite <- ?app_assoc;
    first [ exists []; split; [rewrite app_nil_r; reflexivity | reflexivity]
          | eexists; split; reflexivity ].
Qed.

Lemma parse_options_ok (P : Platform) (program_name : string)
  (rs : list getopt_result) (monitor_mgr : MonitorManager) (w : world P)
  (st : state P) :
  parse_options_on P program_name rs monitor_mgr w = Some st ->
  stdout_ok st /\ error_ok st.
Proof.
  unfold parse_options_on. destruct (monitor_count monitor_mgr =? 0); [discriminate|].
  destruct (parse_loop P program_name monitor_mgr rs (initial_state P monitor_mgr w))
    as [st1|] eqn:Hloop; [|discriminate].
  intros H. inversion H; subst; clear H.
  destruct (loop_keeps_ok P program_name monitor_mgr rs _ _ Hloop) as [Hs He].
  { left. reflexivity. }
  { left. reflexivity. }
  set (st2 := fallback P monitor_mgr st1).
  assert (Hout2 : out st2 = out st1)
    by (unfold st2, fallback; destruct (region_result st1 =? -1); reflexivity).
  assert (Herr2 : error (options st2) = error (options st1))
    by (unfold st2, fallback; destruct (region_result st1 =? -1); reflexivity).
  destruct (report_out P program_name st2) as (k & Hout & Hk).
  pose proof (report_error P program_name st2) as Herr.
  split.
  - unfold stdout_ok in *. rewrite Hout, filter_app, (filter_stderr k Hk), app_nil_r.
    rewrite Hout2, Herr. destruct Hs as [Hs | [Hs Hne]]; [left; exact Hs|].
    right. split; [exact Hs|].
    destruct (region_result st2 =? 0); [congruence | discriminate].
  - unfold error_ok in *. rewrite Hout, Herr, Herr2, Hout2.
    destruct (region_result st2 =? 0); [|auto].
    destruct He as [He | [He | [He Hin]]]; auto.
    right. right. split; [exact He|]. apply in_or_app. left. exact Hin.
Qed.

(** X9.  In every run, what [main] and [parse_options] write to [stdout] is
    nothing, or the usage text once; and when the usage text is written
    the exit code is 1.  Every other message goes to [stderr]. *)
Theorem stdout_only_usage (P : Platform) (program_name : string)
  (rs : list getopt_result) (monitor_mgr : MonitorManager) (w : world P)
  (o : outcome) :
  main_on P program_name rs monitor_mgr w = Some o ->
  filter is_stdout (printed o) = []
  \/ (filter is_stdout (printed o) = [(stdout, usage_text)] /\ exit_code o = 1).
Proof.
  unfold main_on.
  destruct (parse_options_on P program_name rs monitor_mgr w) as [st|] eqn:Hparse;
    [|discriminate].
  destruct (parse_options_ok P program_name rs monitor_mgr w st Hparse) as [Hs _].
  unfold capture.
  destruct (error (options st) =? 0) eqn:Herr; cbn [negb].
  - apply Z.eqb_eq in Herr.
    assert (Hquiet : filter is_stdout (out st) = [])
      by (destruct Hs as [Hs | [_ Hs]]; [exact Hs | contradiction]).
    destruct ((width (region (options st)) <=? 0)
              || (height (region (options st)) <=? 0))%bool.
    + intros Ho. inversion Ho; subst; clear Ho. cbn [printed].
      left. rewrite filter_app, Hquiet. reflexivity.
    + destruct (grab_screenshot P (env st) (region (options st))); [|discriminate].
      destruct (negb _); intros Ho; inversion Ho; subst; left; exact Hquiet.
  - intros Ho. inversion Ho; subst; clear Ho. cbn [printed exit_code].
    destruct Hs as [Hs | [Hs _]]; auto.
Qed.

Lemma stdout_only_usage_witness :
  filter is_stdout [(stdout, usage_text); (stderr, not_implemented_text)] = []
  \/ (filter is_stdout [(stdout, usage_text); (stderr, not_implemented_text)]
      = [(stdout, usage_text)]
      /\ exit_code (mk_outcome 1 [(stdout, usage_text); (stderr, not_implemented_text)]
                      [call_active_window]) = 1).
Proof.
  apply (stdout_only_usage scripted "shot"
           [mk_result (chr "w") ""; mk_result (chr "h") ""; mk_result (chr "d") ""]
           two_monitors []
           (mk_outcome 1 [(stdout, usage_text); (stderr, not_implemented_text)]
              [call_active_window])
           eq_refl).
Defined.

(** X10.  The error flag that [parse_options] returns is 0, 1 or -1; it is
    -1 only when the usage text was written and the resolution succeeded,
    and it is 0 only when the result code is 0. *)
Theorem error_flag_values (P : Platform) (program_name : string)
  (rs : list getopt_result) (monitor_mgr : MonitorManager) (w : world P)
  (st : state P) :
  parse_options_on P program_name rs monitor_mgr w = Some st ->
  (error (options st) = 0 \/ error (options st) = 1 \/ error (options st) = -1)
  /\ (error (options st) = -1 ->
      In (stdout, usage_text) (out st) /\ region_result st = 0)
  /\ (error (options st) = 0 -> region_result st = 0).
Proof.
  intros Hparse.
  destruct (parse_options_ok P program_name rs monitor_mgr w st Hparse) as [_ He].
  split; [|split].
  - unfold error_ok in He. tauto.
  - intros Hm. split.
    + destruct He as [He | [He | [_ Hin]]]; [congruence | congruence | exact Hin].
    + revert Hparse Hm. unfold parse_options_on.
      destruct (monitor_count monitor_mgr =? 0); [discriminate|].
      destruct (parse_loop P program_name monitor_mgr rs (initial_state P monitor_mgr w))
        as [st1|]; [|discriminate].
      intros H. inversion H; subst; clear H.
      rewrite report_error.
      destruct (report_keeps P program_name (fallback P monitor_mgr st1)) as (_ & -> & _).
      destruct (region_result (fallback P monitor_mgr st1) =? 0) eqn:E;
        [intros _; apply Z.eqb_eq; exact E | discriminate].
  - apply (parse_options_success P program_name rs monitor_mgr w st Hparse).
Qed.

Lemma error_flag_values_witness :
  In (stdout, usage_text) [(stdout, usage_text)] /\ 0 = 0.
Proof.
  apply (error_flag_values scripted "shot"
           [mk_result (chr "d") ""; mk_result (chr "h") ""] two_monitors []
           (mk_state scripted (mk_options (-1) None (mk_region 0 0 3200 1080)) 0 []
              [(stdout, usage_text)] [call_all_monitors])
           eq_refl).
  reflexivity.
Defined.

(** ** Unknown options *)

(** X11.  When the option loop, after going through [pre], gets ['?'],
    [':'] or a value that only the [default] of the [switch] takes, it
    sets the error to 1 and stops.  For ['?'] and [':'] (from
    [getopt_long] for an unknown
    option or a missing argument) it writes the usage hint to [stderr] and
    nothing else; for any other value it writes the "invalid option" line
    with that value and then the usage hint.  In both cases
    nothing of [post] is handled, the region, the result code and the calls
    stay as [pre] left them, and [main] exits with 1 without capture. *)
Theorem unknown_option_stops (P : Platform) (program_name : string)
  (monitor_mgr : MonitorManager) (w : world P)
  (pre post : list getopt_result) (r : getopt_result) (st1 : state P) :
  monitor_count monitor_mgr <> 0 ->
  no_end pre = true ->
  parse_loop P program_name monitor_mgr pre (initial_state P monitor_mgr w) = Some st1 ->
  error (options st1) = 0 ->
  is_known r = false ->
  (exists st2,
      parse_loop P program_name monitor_mgr (pre ++ r :: post)
        (initial_state P monitor_mgr w) = Some st2
      /\ error (options st2) = 1
      /\ region (options st2) = region (options st1)
      /\ region_result st2 = region_result st1
      /\ calls st2 = calls st1
      /\ out st2
         = (out st1
            ++ (if ((c r =? chr ":") || (c r =? chr "?"))%bool then []
                else [(stderr, invalid_option_text program_name (c r))])
            ++ [(stderr, usage_hint_text program_name)])%list)
  /\ exists o,
      main_on P program_name (pre ++ r :: post) monitor_mgr w = Some o
      /\ exit_code o = 1
      /\ forallb (fun a => negb (is_capture a)) (made o) = true.
Proof.
  intros Hcount Hend Hpre Herr Hr.
  assert (Hloop :
            parse_loop P program_name monitor_mgr (pre ++ r :: post)
              (initial_state P monitor_mgr w)
            = handle_option P program_name monitor_mgr r st1).
  { rewrite (loop_app P program_name monitor_mgr pre _ _ st1 Hend Hpre Herr).
    cbn [parse_loop]. rewrite Herr. cbn [Z.eqb].
    assert ((c r =? -1) = false) as ->.
    { unfold is_known in Hr.
      repeat (apply orb_false_iff in Hr; destruct Hr as [Hr ?]). exact Hr. }
    rewrite (handle_unknown P program_name monitor_mgr r st1 Hr).
    destruct post; reflexivity. }
  rewrite Hloop, (handle_unknown P program_name monitor_mgr r st1 Hr).
  split.
  - eexists. split; [reflexivity|].
    destruct ((c r =? chr ":") || (c r =? chr "?"))%bool; cbn;
      (do 4 (split; [reflexivity|])); rewrite <- ?app_assoc; reflexivity.
  - unfold main_on.
    destruct (parse_options_on P program_name (pre ++ r :: post) monitor_mgr w)
      as [st|] eqn:Hparse.
    + pose proof (parse_options_calls P program_name _ monitor_mgr w st Hparse) as Hc.
      assert (Hne : error (options st) <> 0).
      { revert Hparse. unfold parse_options_on. apply Z.eqb_neq in Hcount.
        rewrite Hcount, Hloop, (handle_unknown P program_name monitor_mgr r st1 Hr).
        intros H. inversion H; subst; clear H. rewrite report_error.
        destruct (region_result _ =? 0); [|discriminate].
        unfold fallback. destruct (region_result _ =? -1); cbn; discriminate. }
      rewrite (capture_error P st Hne). eexists. split; [reflexivity|].
      cbn. auto.
    + exfalso. revert Hparse. unfold parse_options_on. apply Z.eqb_neq in Hcount.
      rewrite Hcount, Hloop, (handle_unknown P program_name monitor_mgr r st1 Hr).
      discriminate.
Qed.

(** [--desktop --bogus --window]: the window resolver is not called. *)
Lemma unknown_option_stops_witness :
  exists o,
    main_on scripted "shot"
      ([mk_result (chr "d") ""] ++ unknown :: [mk_result (chr "w") ""])
      two_monitors [] = Some o
    /\ exit_code o = 1
    /\ forallb (fun a => negb (is_capture a)) (made o) = true.
Proof.
  assert (Hcount : monitor_count two_monitors <> 0) by (vm_compute; discriminate).
  apply (unknown_option_stops scripted "shot" two_monitors []
           [mk_result (chr "d") ""] [mk_result (chr "w") ""] unknown
           (mk_state scripted (mk_options 0 None (mk_region 0 0 3200 1080)) 0 []
              [] [call_all_monitors])
           Hcount eq_refl eq_refl eq_refl eq_refl).
Defined.

(** ** The output path *)

Lemma handle_keeps_path (P : Platform) (program_name : string)
  (monitor_mgr : MonitorManager) (r : getopt_result) (st st' : state P) :
  is_output r = false ->
  handle_option P program_name monitor_mgr r st = Some st' ->
  output_path (options st') = output_path (options st).
Proof.
  unfold is_output, handle_option, case_d, case_m, case_r, case_i, case_w.
  intros Ho H. rewrite Ho in H.
  repeat match type of H with
         | context [if ?b then _ else _] => destruct b
         | context [match ?e with _ => _ end] => destruct e
         end;
    inversion H; subst; reflexivity.
Qed.

Lemma loop_keeps_path (P : Platform) (program_name : string)
  (monitor_mgr : MonitorManager) (rs : list getopt_result) :
  forall st st' : state P,
    forallb (fun r => negb (is_output r)) rs = true ->
    parse_loop P program_name monitor_mgr rs st = Some st' ->
    output_path (options st') = output_path (options st).
Proof.
  induction rs as [|r rest IH]; intros st st' Hrs H; cbn [parse_loop] in H.
  - destruct (error (options st) =? 0); inversion H; reflexivity.
  - cbn [forallb] in Hrs. apply andb_true_iff in Hrs. destruct Hrs as [Hr Hrest].
    apply negb_true_iff in Hr.
    destruct (error (options st) =? 0); [|inversion H; reflexivity].
    destruct (c r =? -1); [inversion H; reflexivity|].
    destruct (handle_option P program_name monitor_mgr r st) as [st1|] eqn:Hh;
      [|discriminate].
    rewrite (IH st1 st' Hrest H).
    apply (handle_keeps_path P program_name monitor_mgr r st st1 Hr Hh).
Qed.

Lemma fallback_keeps_path (P : Platform) (monitor_mgr : MonitorManager) (st : state P) :
  output_path (options (fallback P monitor_mgr st)) = output_path (options st).
Proof.
  unfold fallback. destruct (region_result st =? -1); reflexivity.
Qed.

(** X12.  When the option loop handles [-o]/[--output] with argument
    [optarg r] after [pre], and no further [-o] follows, then whatever
    else follows, and whether the resolution succeeds or not,
    [options.output_path] is that argument when [parse_options] returns:
    the last output path given wins, and the turn for [-o] itself changes
    nothing else. *)
Theorem last_output_path_wins (P : Platform) (program_name : string)
  (m : Monitor) (ms : list Monitor) (w : world P)
  (pre post : list getopt_result) (r : getopt_result) (st1 : state P) :
  no_end pre = true ->
  parse_loop P program_name (m :: ms) pre (initial_state P (m :: ms) w) = Some st1 ->
  error (options st1) = 0 ->
  is_output r = true ->
  forallb (fun e => negb (is_output e)) post = true ->
  handle_option P program_name (m :: ms) r st1
  = Some (mk_state P (mk_options 0 (Some (optarg r)) (region (options st1)))
            (region_result st1) (env st1) (out st1) (calls st1))
  /\ exists st,
      parse_options_on P program_name (pre ++ r :: post) (m :: ms) w = Some st
      /\ output_path (options st) = Some (optarg r).
Proof.
  intros Hend Hpre Herr Ho Hpost.
  assert (Hc : c r = chr "o") by (apply Z.eqb_eq; exact Ho).
  assert (Hh : handle_option P program_name (m :: ms) r st1
               = Some (mk_state P (mk_options 0 (Some (optarg r)) (region (options st1)))
                         (region_result st1) (env st1) (out st1) (calls st1))).
  { unfold handle_option. rewrite Hc. cbn [Z.eqb chr orb].
    unfold set_output_path. rewrite Herr. reflexivity. }
  split; [exact Hh|].
  unfold parse_options_on. rewrite monitor_count_cons.
  rewrite (loop_app P program_name (m :: ms) pre _ _ st1 Hend Hpre Herr).
  cbn [parse_loop]. rewrite Herr, Hc, Hh. cbn [Z.eqb chr].
  destruct (loop_total P program_name m ms post
              (mk_state P (mk_options 0 (Some (optarg r)) (region (options st1)))
                 (region_result st1) (env st1) (out st1) (calls st1)))
    as (st3 & Hloop).
  rewrite Hloop. eexists. split; [reflexivity|].
  destruct (report_keeps P program_name (fallback P (m :: ms) st3))
    as (_ & _ & _ & _ & ->).
  rewrite fallback_keeps_path.
  rewrite (loop_keeps_path P program_name (m :: ms) post _ st3 Hpost Hloop).
  reflexivity.
Qed.

(** [-o a.png -o b.png --window]: the second path stands, the resolution
    fails. *)
Lemma last_output_path_wins_witness :
  exists st,
    parse_options_on scripted "shot"
      ([mk_result (chr "o") "a.png"] ++ mk_result (chr "o") "b.png"
         :: [mk_result (chr "w") ""])
      two_monitors [] = Some st
    /\ output_path (options st) = Some "b.png".
Proof.
  apply (last_output_path_wins scripted "shot"
           (mk_monitor 0 0 1920 1080 false) [mk_monitor 1920 0 1280 1024 false] []
           [mk_result (chr "o") "a.png"] [mk_result (chr "w") ""]
           (mk_result (chr "o") "b.png")
           (mk_state scripted (mk_options 0 (Some "a.png") (mk_region 40 40 640 480))
              (-1) [] [] [])
           eq_refl eq_refl eq_refl eq_refl eq_refl).
Defined.

(** ** Arguments of --monitor that are no index *)

Lemma atoi_non_numeric (a : ascii) (rest : string) :
  isspace a = false ->
  digit_of a = None ->
  a <> "-"%char ->
  a <> "+"%char ->
  atoi (String a rest) = 0.
Proof.
  intros Hs Hd Hm Hp.
  destruct a as [[] [] [] [] [] [] [] []];
    try (exfalso; apply Hm; reflexivity);
    try (exfalso; apply Hp; reflexivity);
    try (vm_compute in Hs; discriminate Hs);
    try (vm_compute in Hd; discriminate Hd);
    reflexivity.
Qed.

(** X13.  [atoi] reports no error: an argument of [--monitor] that is empty
    or starts with a character that is neither white space, a sign nor a
    digit reads as index 0, and the first monitor is selected with result
    code 0 and without any message. *)
Theorem monitor_argument_no_number (P : Platform) (program_name : string)
  (m : Monitor) (ms : list Monitor) (arg : string) (st : state P) :
  (arg = EmptyString
   \/ exists a rest,
       arg = String a rest /\ isspace a = false /\ digit_of a = None
       /\ a <> "-"%char /\ a <> "+"%char) ->
  handle_option P program_name (m :: ms) (mk_result (chr "m") arg) st
  = Some (set_result P
            (0, mk_region (mon_x m) (mon_y m) (mon_width m) (mon_height m))
            (called P [call_monitor m] st)).
Proof.
  intros Harg.
  assert (Hzero : atoi arg = 0).
  { destruct Harg as [-> | (a & rest & -> & Hs & Hd & Hm & Hp)]; [reflexivity|].
    apply atoi_non_numeric; assumption. }
  change (handle_option P program_name (m :: ms) (mk_result (chr "m") arg) st)
    with (case_m P (m :: ms) arg st).
  unfold case_m. rewrite Hzero.
  change (to_unsigned (size_t_bits P) 0) with 0.
  assert ((0 >=? monitor_count (m :: ms)) = false) as ->.
  { rewrite Z.geb_leb. apply Z.leb_gt. unfold monitor_count. cbn [List.length]. lia. }
  reflexivity.
Qed.

(** [--monitor second] on two monitors selects the first. *)
Lemma monitor_argument_no_number_witness :
  handle_option scripted "shot" two_monitors (mk_result (chr "m") "second")
    (initial_state scripted two_monitors [])
  = Some (mk_state scripted (mk_options 0 None (mk_region 0 0 1920 1080)) 0 [] []
            [call_monitor (mk_monitor 0 0 1920 1080 false)]).
Proof.
  apply (monitor_argument_no_number scripted "shot"
           (mk_monitor 0 0 1920 1080 false) [mk_monitor 1920 0 1280 1024 false]
           "second" (initial_state scripted two_monitors [])).
  right. exists "s"%char, "econd".
  repeat split; discriminate.
Defined.

(** X14.  An index of [--monitor] that fits an [int] and is out of range,
    negative or from [monitor_count] on, given as the only option: the run
    writes the range message, then "Invalid argument, aborting." and the
    usage hint, all to [stderr], calls no resolver (no fall-back to the
    desktop either), captures nothing and exits with 1. *)
Theorem monitor_out_of_range_run (P : Platform) (program_name : string)
  (monitor_mgr : MonitorManager) (w : world P) (arg : string) :
  error_codes_ok P ->
  32 <= size_t_bits P ->
  0 < monitor_count monitor_mgr <= 2 ^ 31 ->
  - 2 ^ 31 <= number_in arg < 2 ^ 31 ->
  number_in arg < 0 \/ monitor_count monitor_mgr <= number_in arg ->
  main_on P program_name [mk_result (chr "m") arg] monitor_mgr w
  = Some (mk_outcome 1
            [(stderr, invalid_monitor_text monitor_mgr);
             (stderr, invalid_argument_text);
             (stderr, usage_hint_text program_name)]
            []).
Proof.
  intros Hcodes Hbits Hcount Hint Harg.
  apply codes_apart in Hcodes.
  destruct Hcodes as (_ & _ & (I0 & I1 & I2 & I3) & _).
  assert (Hread : atoi arg = number_in arg) by (apply atoi_in_range; exact Hint).
  assert (Hbig : (to_unsigned (size_t_bits P) (atoi arg) >=? monitor_count monitor_mgr)
                 = true).
  { rewrite Z.geb_leb. apply Z.leb_le. destruct Harg as [Hneg | Hge].
    - assert (Hlt : atoi arg < 0) by lia.
      pose proof (to_unsigned_negative _ arg Hbits Hlt). lia.
    - rewrite to_unsigned_index by lia. lia. }
  assert (Hloop :
            parse_loop P program_name monitor_mgr [mk_result (chr "m") arg]
              (initial_state P monitor_mgr w)
            = Some (set_result P (ERR_INVALID_ARGUMENT P, init_region monitor_mgr)
                      (print P stderr (invalid_monitor_text monitor_mgr)
                         (initial_state P monitor_mgr w)))).
  { change (parse_loop P program_name monitor_mgr [mk_result (chr "m") arg]
              (initial_state P monitor_mgr w))
      with (match case_m P monitor_mgr arg (initial_state P monitor_mgr w) with
            | Some st' => parse_loop P program_name monitor_mgr [] st'
            | None => None
            end).
    unfold case_m. rewrite Hbig. reflexivity. }
  unfold main_on, parse_options_on.
  assert ((monitor_count monitor_mgr =? 0) = false) as -> by (apply Z.eqb_neq; lia).
  rewrite Hloop.
  rewrite fallback_idle by (cbn [region_result set_result fst]; exact I1).
  unfold report. cbn [region_result set_result fst].
  rewrite (proj2 (Z.eqb_neq _ _) I0), (proj2 (Z.eqb_neq _ _) I2),
    (proj2 (Z.eqb_neq _ _) I3), Z.eqb_refl.
  reflexivity.
Qed.

Lemma monitor_out_of_range_run_witness :
  main_on scripted "shot" [mk_result (chr "m") "7"] two_monitors []
  = Some (mk_outcome 1
            [(stderr, invalid_monitor_text two_monitors);
             (stderr, invalid_argument_text);
             (stderr, usage_hint_text "shot")]
            []).
Proof.
  assert (Hbits : 32 <= size_t_bits scripted) by (vm_compute; discriminate).
  assert (Hcount : 0 < monitor_count two_monitors <= 2 ^ 31)
    by (split; [reflexivity | vm_compute; discriminate]).
  assert (Hint : - 2 ^ 31 <= number_in "7" < 2 ^ 31)
    by (split; [vm_compute; discriminate | reflexivity]).
  assert (Harg : number_in "7" < 0 \/ monitor_count two_monitors <= number_in "7")
    by (right; vm_compute; discriminate).
  exact (monitor_out_of_range_run scripted "shot" two_monitors [] "7"
           scripted_codes_ok Hbits Hcount Hint Harg).
Defined.

(** ** A result code that is none of the four *)

(** X15.  When the option loop ends on a result code that is not 0, not -1
    and none of the four error constants, [parse_options] sets the error
    without a word, calls nothing more, and [main] exits with 1 having
    printed no reason. *)
Theorem unknown_result_code_silent (P : Platform) (program_name : string)
  (rs : list getopt_result) (monitor_mgr : MonitorManager) (w : world P)
  (st : state P) :
  monitor_count monitor_mgr <> 0 ->
  parse_loop P program_name monitor_mgr rs (initial_state P monitor_mgr w) = Some st ->
  region_result st <> 0 ->
  region_result st <> -1 ->
  ~ In (region_result st)
      [ERR_CANCELED P; ERR_NOT_IMPLEMENTED P; ERR_INVALID_ARGUMENT P; ERR_OTHER P] ->
  parse_options_on P program_name rs monitor_mgr w = Some (set_error P 1 st)
  /\ main_on P program_name rs monitor_mgr w
     = Some (mk_outcome 1 (out st) (calls st)).
Proof.
  intros Hcount Hloop H0 H1 Hnone. cbn [In] in Hnone.
  assert (Hparse : parse_options_on P program_name rs monitor_mgr w
                   = Some (set_error P 1 st)).
  { unfold parse_options_on. apply Z.eqb_neq in Hcount. rewrite Hcount, Hloop.
    rewrite fallback_idle by exact H1. unfold report.
    repeat match goal with
           | |- context [?a =? ?b] =>
               let E := fresh "E" in
               destruct (a =? b) eqn:E;
               [apply Z.eqb_eq in E; exfalso; intuition congruence|]
           end.
    reflexivity. }
  split; [exact Hparse|].
  unfold main_on. rewrite Hparse.
  rewrite capture_error; [reflexivity | cbn; discriminate].
Qed.

(** [--window] with a resolver that fails with the code 9. *)
Lemma unknown_result_code_silent_witness :
  main_on scripted_code_9 "shot" [mk_result (chr "w") ""] two_monitors []
  = Some (mk_outcome 1 [] [call_active_window]).
Proof.
  assert (Hcount : monitor_count two_monitors <> 0) by (vm_compute; discriminate).
  apply (unknown_result_code_silent scripted_code_9 "shot" [mk_result (chr "w") ""]
           two_monitors []
           (mk_state scripted_code_9 (mk_options 0 None (mk_region 40 40 640 480)) 9 []
              [] [call_active_window])
           Hcount eq_refl); cbn; intuition discriminate.
Defined.

(** ** Short and long forms *)


(** ** Failing resolvers and the loop *)

(** X17.  The turn of a mode flag leaves [options.error] and
    [options.output_path] alone, whatever its resolver returns: a resolver
    that fails does not end the option loop, the values after it are
    handled as after one that succeeds, and the failure is reported only
    when the loop is over. *)
Theorem mode_flag_keeps_loop_going (P : Platform) (program_name : string)
  (monitor_mgr : MonitorManager) (r : getopt_result) (rest : list getopt_result)
  (st st' : state P) :
  is_mode r = true ->
  error (options st) = 0 ->
  handle_option P program_name monitor_mgr r st = Some st' ->
  error (options st') = 0
  /\ output_path (options st') = output_path (options st)
  /\ filter is_stdout (out st') = filter is_stdout (out st)
  /\ parse_loop P program_name monitor_mgr (r :: rest) st
     = parse_loop P program_name monitor_mgr rest st'.
Proof.
  intros Hm Herr Hh.
  assert (Hframe : error (options st') = error (options st)
                   /\ output_path (options st') = output_path (options st)
                   /\ filter is_stdout (out st') = filter is_stdout (out st)).
  { apply is_mode_cases in Hm. destruct r as [k a]. cbn [c] in Hm.
    revert Hh. unfold handle_option. cbn [c optarg].
    destruct Hm as [-> | [-> | [-> | [-> | ->]]]];
      repeat match goal with
             | |- context [chr ?a =? ?b] =>
                 let v := eval vm_compute in (chr a =? b) in
                 change (chr a =? b) with v
             end;
      cbn [orb];
      unfold case_d, case_m, case_r, case_i, case_w; intros Hh;
      repeat match type of Hh with
             | context [if ?b then _ else _] => destruct b
             | context [match ?e with _ => _ end] => destruct e
             end;
      inversion Hh; subst; cbn; rewrite ?filter_app; cbn; rewrite ?app_nil_r; auto. }
  destruct Hframe as (He & Hp & Ho).
  split; [congruence|]. split; [exact Hp|]. split; [exact Ho|].
  cbn [parse_loop]. rewrite Herr. cbn [Z.eqb].
  assert ((c r =? -1) = false) as ->.
  { apply is_mode_cases in Hm. apply Z.eqb_neq.
    destruct Hm as [-> | [-> | [-> | [-> | ->]]]]; discriminate. }
  rewrite Hh. reflexivity.
Qed.

(** [--window] fails, [--desktop] after it is still handled. *)
Lemma mode_flag_keeps_loop_going_witness :
  parse_loop scripted "shot" two_monitors
    [mk_result (chr "w") ""; mk_result (chr "d") ""]
    (initial_state scripted two_monitors [])
  = Some (mk_state scripted (mk_options 0 None (mk_region 0 0 3200 1080)) 0 [] []
            [call_active_window; call_all_monitors]).
Proof.
  destruct (mode_flag_keeps_loop_going scripted "shot" two_monitors
              (mk_result (chr "w") "") [mk_result (chr "d") ""]
              (initial_state scripted two_monitors [])
              (mk_state scripted (mk_options 0 None (mk_region 40 40 640 480)) 1 []
                 [] [call_active_window])
              eq_refl eq_refl eq_refl)
    as (_ & _ & _ & Hloop).
  rewrite Hloop. reflexivity.
Defined.
